(** * nscde-kitty-integ: a shallow embedding of [nscde-kitty-integ.py]

    The script turns an NsCDE palette file (eight 12-digit hex colors) into a
    kitty color configuration.  Python values are modelled as follows.

    - [int] is [Z] (unbounded); a [tuple[int]] is a [list Z], so that
      [map(f, xs, ys)], [any], tuple comparison and tuple repetition
      ([t * 2]) keep the meaning they have on tuples of any length.
    - [str] is [string]; the model covers ASCII text.
    - [float] is the kernel's binary64 [float]; [text_color] is computed
      with the same operations, in the same order, as CPython up to 3.11
      (whose [sum] adds floats from left to right), and the distances of
      [closest_color] are the floats the script compares.
    - An exception is a value of [exn]; a call that may raise returns a
      [result].
    - The mutable lists [colors] and [bright_colors] and the dictionary
      [conf.entries] are threaded through the slot assignment as an explicit
      state. *)

From Stdlib Require Import ZArith List String Ascii Bool Lia.
From Stdlib Require Import Floats HexadecimalString.
From Stdlib Require Import Uint63 Permutation.
Import ListNotations.

Set Warnings "-inexact-float".

Local Open Scope string_scope.
Local Open Scope Z_scope.

(** ** Exceptions and results *)

(** The text of an exception.  The messages CPython builds from a [repr] or
    whose wording changed between versions are kept structured. *)
Inductive message : Type :=
| Text (s : string)
| InvalidLiteral (base : Z) (lit : string)   (* int(): invalid literal for int() with base b: repr(lit) *)
| MinEmpty                                   (* min() of an empty sequence *)
| Unpack (expected got : nat)                (* wrong number of values to unpack *)
| NotInList                                  (* list.remove(x): x not in list *)
| IntTooLarge.                               (* int too large to convert to float *)

Inductive exn : Type :=
| ValueError (m : message)
| OverflowError (m : message)
| IndexError (m : message)
| KeyError (m : message)
| OSError (m : message).

Inductive result (A : Type) : Type :=
| Ok (a : A)
| Raise (e : exn).

Arguments Ok {A} a.
Arguments Raise {A} e.

Definition bind {A B} (r : result A) (k : A -> result B) : result B :=
  match r with
  | Ok a => k a
  | Raise e => Raise e
  end.

Declare Scope result_scope.
Delimit Scope result_scope with result.
Notation "x <- r ;; k" := (bind r (fun x => k))
  (at level 61, r at next level, right associativity) : result_scope.
Notation "' pat <- r ;; k" := (bind r (fun x => match x with pat => k end))
  (at level 61, pat pattern, r at next level, right associativity) : result_scope.

(** [[f(x) for x in xs]] for an [f] that may raise: left to right, stopping
    at the first exception. *)
Fixpoint mapM {A B} (f : A -> result B) (xs : list A) : result (list B) :=
  match xs with
  | [] => Ok []
  | x :: xs' => (y <- f x ;; ys <- mapM f xs' ;; Ok (y :: ys))%result
  end.

(** ** Tuples of integers and the canonical hues *)

Definition tuple : Type := list Z.

Definition BLACK : tuple := [0; 0; 0].
Definition RED : tuple := [255; 0; 0].
Definition GREEN : tuple := [0; 255; 0].
Definition YELLOW : tuple := [255; 255; 0].
Definition BLUE : tuple := [0; 0; 255].
Definition MAGENTA : tuple := [255; 0; 255].
Definition CYAN : tuple := [0; 255; 255].
Definition WHITE : tuple := [255; 255; 255].

(** [map(f, xs, ys)]: stops with the shorter argument. *)
Fixpoint map2 {A B C} (f : A -> B -> C) (xs : list A) (ys : list B) : list C :=
  match xs, ys with
  | x :: xs', y :: ys' => f x y :: map2 f xs' ys'
  | _, _ => []
  end.

(** [any(p(i) for i in xs)]. *)
Definition any {A} (p : A -> bool) (xs : list A) : bool := existsb p xs.

(** [round] on an [int] returns it. *)
Definition round (i : Z) : Z := i.

(** An RGB triple of the data model: three channels, each in [0, 255]. *)
Definition channel (c : Z) : Prop := 0 <= c <= 255.

Definition rgb8 (t : tuple) : Prop :=
  exists r g b, t = [r; g; b] /\ channel r /\ channel g /\ channel b.

Definition channelb (c : Z) : bool := (0 <=? c) && (c <=? 255).

Definition rgb8b (t : tuple) : bool :=
  match t with
  | [r; g; b] => channelb r && channelb g && channelb b
  | _ => false
  end.

(** ** Color transformer *)

(** [brighten(rgb, values)]. *)
Definition brighten (rgb values : tuple) : tuple :=
  let br_color := map2 Z.add rgb values in
  let br_color :=
    if any (fun i => i >? 255) br_color then map2 Z.sub rgb values
    else br_color in
  let br_color := if any (fun i => i <? 0) br_color then rgb else br_color in
  map round br_color.

(** The default of the [values] parameter. *)
Definition brighten_default (rgb : tuple) : tuple := brighten rgb [20; 20; 20].

(** ** Text color

    [text_color] works on floats.  [float_of_int] is the conversion Python
    applies to an [int] operand of a float operation: the nearest binary64
    value, ties to even, and [OverflowError] when that is not finite. *)

Definition float_of_int (i : Z) : result float :=
  let f := SF2Prim (binary_normalize prec emax i 0 false) in
  if PrimFloat.is_infinity f then Raise (OverflowError IntTooLarge) else Ok f.

(** [operator.mul] on a float and an int. *)
Definition mul (x : float) (i : Z) : result float :=
  (f <- float_of_int i ;; Ok (PrimFloat.mul x f))%result.

(** [sum] of floats: the start value is the int [0], and each item is added
    to the running total in turn. *)
Definition sum (xs : list float) : float :=
  fold_left PrimFloat.add xs 0%float.

(** The weights [(0.299, 0.587, 0.114)]: each literal denotes the nearest
    binary64 value, here as in Python. *)
Definition luminance_weights : list float := [0.299; 0.587; 0.114]%float.

(** [sum(map(mul, (0.299, 0.587, 0.114), bg)) / 255]. *)
Definition luminance (bg : tuple) : result float :=
  (products <- mapM (fun p => mul (fst p) (snd p))
                    (combine luminance_weights bg) ;;
   Ok (PrimFloat.div (sum products) 255%float))%result.

(** [text_color(bg)]. *)
Definition text_color (bg : tuple) : result tuple :=
  (lum <- luminance bg ;;
   Ok (if PrimFloat.ltb 0.5%float lum then [0; 0; 0] else [255; 255; 255]))%result.

(** ** Closest color *)

(** [a, b, c = t]. *)
Definition unpack3 (t : tuple) : result (Z * Z * Z) :=
  match t with
  | [a; b; c] => Ok (a, b, c)
  | _ => Raise (ValueError (Unpack 3 (List.length t)))
  end.

(** The radicand of [color_diff]:
    [abs(r - cr) ** 2 + abs(g - cg) ** 2 + abs(b - cb) ** 2]. *)
Definition radicand (rgb color : Z * Z * Z) : Z :=
  let '(r, g, b) := rgb in
  let '(cr, cg, cb) := color in
  Z.abs (r - cr) ^ 2 + Z.abs (g - cg) ^ 2 + Z.abs (b - cb) ^ 2.

(** [x ** (1 / 2)] for an int [x] that is not negative, as the radicand is:
    [x] is converted to a float and raised to the power 0.5 by the C
    library.  The model takes the correctly rounded square root.  A library
    power that is off in the last bits orders the roots met here in the same
    way: they lie far apart ([roots_separated]). *)
Definition pow_half (x : Z) : result float :=
  (f <- float_of_int x ;; Ok (PrimFloat.sqrt f))%result.

(** [color_diff]. *)
Definition color_diff (rgb color : Z * Z * Z) : result float :=
  pow_half (radicand rgb color).

(** [a < b] on tuples of ints: the first differing position decides, and a
    proper prefix is smaller. *)
Fixpoint tuple_ltb (a b : tuple) : bool :=
  match a, b with
  | [], [] => false
  | [], _ :: _ => true
  | _ :: _, [] => false
  | x :: a', y :: b' => if x =? y then tuple_ltb a' b' else x <? y
  end.

(** [p < q] on the pairs [(color_diff, color)]: the distances decide
    unless they are equal as floats, and then the colors do. *)
Definition pair_ltb (p q : float * tuple) : bool :=
  if PrimFloat.eqb (fst p) (fst q) then tuple_ltb (snd p) (snd q)
  else PrimFloat.ltb (fst p) (fst q).

(** [min]: the running minimum is replaced only by a strictly smaller item. *)
Fixpoint min_from (best : float * tuple) (items : list (float * tuple))
  : float * tuple :=
  match items with
  | [] => best
  | x :: items' => min_from (if pair_ltb x best then x else best) items'
  end.

Definition min (items : list (float * tuple)) : result (float * tuple) :=
  match items with
  | [] => Raise (ValueError MinEmpty)
  | x :: items' => Ok (min_from x items')
  end.

(** [==] on tuples of ints. *)
Definition tuple_eqb (a b : tuple) : bool :=
  if list_eq_dec Z.eq_dec a b then true else false.

(** [l.remove(x)]: the list without its first item equal to [x]. *)
Fixpoint remove (x : tuple) (l : list tuple) : result (list tuple) :=
  match l with
  | [] => Raise (ValueError NotInList)
  | y :: l' =>
      if tuple_eqb y x then Ok l'
      else (r <- remove x l' ;; Ok (y :: r))%result
  end.

(** The loop that fills [color_diffs]. *)
Definition color_diffs (rgb : Z * Z * Z) (colors : list tuple)
  : result (list (float * tuple)) :=
  mapM (fun color => (c <- unpack3 color ;;
                      color_diff <- color_diff rgb c ;;
                      Ok (color_diff, color))%result)
       colors.

(** [closest_color(rgb, colors)]: the color returned, and the list [colors]
    as the call leaves it. *)
Definition closest_color (rgb : tuple) (colors : list tuple)
  : result (tuple * list tuple) :=
  (t <- unpack3 rgb ;;
   diffs <- color_diffs t colors ;;
   m <- min diffs ;;
   let result := snd m in
   colors' <- remove result colors ;;
   Ok (result, colors'))%result.

(** ** Color codec *)

Definition code (c : ascii) : Z := Z.of_N (N_of_ascii c).

(** The whitespace [int] skips around a literal: tab, line feed, vertical
    tab, form feed, carriage return and space. *)
Definition is_space (c : ascii) : bool :=
  ((9 <=? code c) && (code c <=? 13)) || (code c =? 32).

(** The whitespace [str.strip] removes: the above and the four separators
    28 to 31. *)
Definition is_str_space (c : ascii) : bool :=
  is_space c || ((28 <=? code c) && (code c <=? 31)).

Fixpoint drop_while (p : ascii -> bool) (cs : list ascii) : list ascii :=
  match cs with
  | c :: cs' => if p c then drop_while p cs' else cs
  | [] => []
  end.

(** [s.strip()]. *)
Definition strip (s : string) : string :=
  string_of_list_ascii
    (rev (drop_while is_str_space
            (rev (drop_while is_str_space (list_ascii_of_string s))))).

(** The value of a hexadecimal digit. *)
Definition hex_digit (c : ascii) : option Z :=
  let n := code c in
  if (48 <=? n) && (n <=? 57) then Some (n - 48)
  else if (97 <=? n) && (n <=? 102) then Some (n - 87)
  else if (65 <=? n) && (n <=? 70) then Some (n - 55)
  else None.

(** The digits of a literal: hexadecimal digits with single underscores
    between them.  Returns the value, the number of digits and the rest of
    the input, or [None] for a doubled or trailing underscore. *)
Fixpoint scan_digits (prev_underscore : bool) (acc : Z) (digits : nat)
    (cs : list ascii) : option (Z * nat * list ascii) :=
  let stop := if prev_underscore then None else Some (acc, digits, cs) in
  match cs with
  | [] => stop
  | c :: cs' =>
      if Ascii.eqb c "_" then
        if prev_underscore then None else scan_digits true acc digits cs'
      else
        match hex_digit c with
        | Some d => scan_digits false (16 * acc + d) (S digits) cs'
        | None => stop
        end
  end.

(** [int(s, 16)]: optional whitespace, an optional sign, an optional [0x]
    prefix (which one underscore may follow), the digits, optional
    whitespace. *)
Definition int16 (s : string) : result Z :=
  let invalid := Raise (ValueError (InvalidLiteral 16 s)) in
  let cs := drop_while is_space (list_ascii_of_string s) in
  let '(negative, cs) :=
    match cs with
    | "+"%char :: cs' => (false, cs')
    | "-"%char :: cs' => (true, cs')
    | _ => (false, cs)
    end in
  let cs :=
    match cs with
    | "0"%char :: x :: cs' =>
        if Ascii.eqb x "x" || Ascii.eqb x "X" then
          match cs' with
          | "_"%char :: cs'' => cs''
          | _ => cs'
          end
        else cs
    | _ => cs
    end in
  match cs with
  | "_"%char :: _ => invalid
  | _ =>
      match scan_digits false 0 0 cs with
      | None => invalid
      | Some (_, O, _) => invalid
      | Some (v, S _, rest) =>
          match drop_while is_space rest with
          | [] => Ok (if negative then - v else v)
          | _ :: _ => invalid
          end
      end
  end.

Definition not_formatted : string :=
  "thxs is not correctly formatted (#xxxxxxxxxxxx).".

Definition twelve_digits : string :=
  "thxs must be 12 digits long with '#' at the beginning.".

(** [tw_to_rgb(thxs)]: the lines it prints, and its result.  [thxs[i:j]] is
    [substring i (j - i) thxs]. *)
Definition tw_to_rgb (thxs : string) : list string * result tuple :=
  if negb (Nat.eqb (String.length thxs) 13) then
    if Nat.eqb (String.length thxs) 12 then
      ([], Raise (ValueError (Text not_formatted)))
    else
      ([thxs], Raise (ValueError (Text twelve_digits)))
  else
    ([], (r <- int16 (substring 1 2 thxs) ;;
          g <- int16 (substring 5 2 thxs) ;;
          b <- int16 (substring 9 2 thxs) ;;
          Ok [r; g; b])%result).

(** [format(i, 'x')]: lower-case hexadecimal, with a minus sign for a
    negative number. *)
Definition format_x (i : Z) : string :=
  HexadecimalString.NilZero.string_of_int (Z.to_hex_int i).

Definition upper_char (c : ascii) : ascii :=
  if (97 <=? code c) && (code c <=? 122) then ascii_of_N (N_of_ascii c - 32)
  else c.

(** [s.upper()]. *)
Definition upper (s : string) : string :=
  string_of_list_ascii (List.map upper_char (list_ascii_of_string s)).

(** [t[i]]. *)
Definition index (t : tuple) (i : nat) : result Z :=
  match nth_error t i with
  | Some v => Ok v
  | None => Raise (IndexError (Text "tuple index out of range"))
  end.

(** [rgb_to_hex(rgb)]. *)
Definition rgb_to_hex (rgb : tuple) : result string :=
  (r <- index rgb 0 ;;
   g <- index rgb 1 ;;
   b <- index rgb 2 ;;
   Ok (upper ("#" ++ format_x r ++ format_x g ++ format_x b)))%result.

(** ** The configuration model *)

(** A dictionary with string keys, in insertion order. *)
Definition dict : Type := list (string * tuple).

(** [d[k] = v]: an existing key keeps its place. *)
Fixpoint setitem (d : dict) (k : string) (v : tuple) : dict :=
  match d with
  | [] => [(k, v)]
  | (k', v') :: d' =>
      if String.eqb k' k then (k, v) :: d' else (k', v') :: setitem d' k v
  end.

(** [d[k]]. *)
Fixpoint getitem (d : dict) (k : string) : result tuple :=
  match d with
  | [] => Raise (KeyError (Text k))
  | (k', v) :: d' => if String.eqb k' k then Ok v else getitem d' k
  end.

Definition fields : list string :=
  [ "foreground"; "background"; "cursor";
    "selection_foreground"; "selection_background";
    "color0"; "color1"; "color2"; "color3"; "color4"; "color5"; "color6";
    "color7"; "color8"; "color9"; "color10"; "color11"; "color12";
    "color13"; "color14"; "color15" ].

(** [ColorConfModel().entries]: every field mapped to the empty tuple. *)
Definition ColorConfModel : dict := List.map (fun f => (f, [])) fields.

(** ** Pools *)

(** [t * n] on a tuple: [n] copies of [t] one after the other. *)
Definition tuple_repeat (t : tuple) (n : nat) : tuple := List.concat (repeat t n).

(** The [colors] and [bright_colors] lists built from the decoded palette. *)
Definition pools (vibrant : bool) (brightness : tuple) (colors : list tuple)
  : list tuple * list tuple :=
  if vibrant then
    let colors := List.map (fun i => brighten i brightness) colors in
    let bright_colors :=
      List.map (fun i => brighten i (tuple_repeat brightness 2)) colors in
    (colors, bright_colors)
  else
    let bright_colors := List.map (fun i => brighten i brightness) colors in
    (colors, bright_colors).

(** ** Slot assignment

    The statements of the [if args.ncolors in [8, 4]] branch read and write
    three mutable objects; they run in a state and error monad over them. *)

Record state : Type := mkState {
  colors : list tuple;
  bright_colors : list tuple;
  entries : dict
}.

Definition M (A : Type) : Type := state -> result (A * state).

Definition ret {A} (a : A) : M A := fun s => Ok (a, s).

Definition bindM {A B} (m : M A) (k : A -> M B) : M B :=
  fun s =>
    match m s with
    | Ok (a, s') => k a s'
    | Raise e => Raise e
    end.

Definition lift {A} (r : result A) : M A :=
  fun s =>
    match r with
    | Ok a => Ok (a, s)
    | Raise e => Raise e
    end.

Declare Scope prog_scope.
Delimit Scope prog_scope with prog.
Notation "x <- m ;; k" := (bindM m (fun x => k))
  (at level 61, m at next level, right associativity) : prog_scope.
Notation "m ;; k" := (bindM m (fun _ => k))
  (at level 61, right associativity) : prog_scope.

Inductive pool : Type := Colors | Bright_colors.

(** [closest_color(rgb, colors)] or [closest_color(rgb, bright_colors)]: the
    list named is the one mutated. *)
Definition closest (rgb : tuple) (p : pool) : M tuple :=
  fun s =>
    match p with
    | Colors =>
        match closest_color rgb (colors s) with
        | Ok (c, l) => Ok (c, mkState l (bright_colors s) (entries s))
        | Raise e => Raise e
        end
    | Bright_colors =>
        match closest_color rgb (bright_colors s) with
        | Ok (c, l) => Ok (c, mkState (colors s) l (entries s))
        | Raise e => Raise e
        end
    end.

(** [conf.entries[k] = v]. *)
Definition set (k : string) (v : tuple) : M unit :=
  fun s => Ok (tt, mkState (colors s) (bright_colors s) (setitem (entries s) k v)).

(** [conf.entries[k]]. *)
Definition get (k : string) : M tuple :=
  fun s => lift (getitem (entries s) k) s.

(** Lines 292 to 329. *)
Definition assign : M unit :=
  (c <- closest BLACK Colors ;; set "background" c ;;
   bg <- get "background" ;; fg <- lift (text_color bg) ;;
   set "foreground" fg ;;
   c <- closest YELLOW Colors ;; set "cursor" c ;;
   v <- get "background" ;; set "selection_foreground" v ;;
   v <- get "foreground" ;; set "selection_background" v ;;
   (* Black *)
   v <- get "background" ;; set "color0" v ;;
   c <- closest BLACK Bright_colors ;; set "color8" c ;;
   (* Red *)
   c <- closest RED Colors ;; set "color1" c ;;
   c <- closest RED Bright_colors ;; set "color9" c ;;
   (* Green *)
   c <- closest GREEN Colors ;; set "color2" c ;;
   c <- closest GREEN Bright_colors ;; set "color10" c ;;
   (* Yellow *)
   v <- get "cursor" ;; set "color3" v ;;
   c <- closest YELLOW Bright_colors ;; set "color11" c ;;
   (* Blue *)
   c <- closest BLUE Colors ;; set "color4" c ;;
   c <- closest BLUE Bright_colors ;; set "color12" c ;;
   (* Magenta *)
   c <- closest MAGENTA Colors ;; set "color5" c ;;
   c <- closest MAGENTA Bright_colors ;; set "color13" c ;;
   (* Cyan *)
   c <- closest CYAN Colors ;; set "color6" c ;;
   c <- closest CYAN Bright_colors ;; set "color14" c ;;
   (* White *)
   c <- closest WHITE Colors ;; set "color7" c ;;
   c <- closest WHITE Bright_colors ;; set "color15" c)%prog.

(** ** The script *)

(** The parsed command line ([args]).  The parser only lets through values
    of [--brightness], [-r], [-g] and [-b] between 0 and 255. *)
Module Args.
Record t : Type := mk {
  path : string;
  theme : string;
  ncolors : Z;
  brightness : Z;
  r : Z;
  g : Z;
  b : Z;
  vibrant : bool;
  silent : bool
}.
End Args.

(** The file system as the script meets it.  [readlines p] is what opening
    [p] for reading and calling [readlines] gives; [open_w p] opens [p] for
    writing; [write p done chunk] is [f.write(chunk)] after the chunks
    [done]; [close p done] is the close that ends the [with] block. *)
Record env : Type := mkEnv {
  readlines : string -> result (list string);
  open_w : string -> result unit;
  write : string -> list string -> string -> result unit;
  close : string -> list string -> result unit
}.

(** How the process ends: [sys.exit(n)] or falling off the end ([Exit]), or
    an exception nobody caught ([Uncaught], a traceback and status 1). *)
Inductive exit : Type :=
| Exit (n : Z)
| Uncaught (e : exn).

Definition exit_status (x : exit) : Z :=
  match x with
  | Exit n => n
  | Uncaught _ => 1
  end.

Record outcome : Type := mkOutcome {
  status : exit;
  stdout : list string;                 (* the lines printed *)
  theme_file : option (list string)     (* the chunks written, once opened *)
}.

Definition nl : string := String (ascii_of_nat 10) EmptyString.

(** The [brightness] tuple: [-r], [-g] and [-b] replace [--brightness] where
    they are positive. *)
Definition brightness (a : Args.t) : tuple :=
  map2 (fun x y => if x >? 0 then x else y)
       [Args.r a; Args.g a; Args.b a]
       (repeat (Args.brightness a) 3).

(** [[tw_to_rgb(i.strip()) for i in colors_12d]], with what it prints. *)
Fixpoint decode_palette (colors_12d : list string)
  : list string * result (list tuple) :=
  match colors_12d with
  | [] => ([], Ok [])
  | i :: rest =>
      match tw_to_rgb (strip i) with
      | (out, Raise e) => (out, Raise e)
      | (out, Ok c) =>
          match decode_palette rest with
          | (out', Raise e) => ((out ++ out')%list, Raise e)
          | (out', Ok cs) => ((out ++ out')%list, Ok (c :: cs))
          end
      end
  end.

(** The strings the [with] block passes to [f.write], each computed when its
    turn comes. *)
Definition theme_chunks (a : Args.t) (conf : dict) : list (result string) :=
  Ok ("### Color theme generated by nscde-kitty-integ.py." ++ nl)
  :: Ok ("### NsCDE theme: " ++ Args.path a ++ nl)
  :: List.map (fun e => (v <- getitem conf e ;;
                         h <- rgb_to_hex v ;;
                         Ok (e ++ " " ++ h ++ nl))%result)
              (List.map fst conf).

Fixpoint write_all (w : env) (p : string) (done : list string)
    (chunks : list (result string)) : list string * result unit :=
  match chunks with
  | [] => (done, Ok tt)
  | Raise e :: _ => (done, Raise e)
  | Ok c :: chunks' =>
      match write w p done c with
      | Ok _ => write_all w p (done ++ [c])%list chunks'
      | Raise e => (done, Raise e)
      end
  end.

(** The body of the second [try]: open, write, close.  An exception of the
    close replaces one of the block. *)
Definition write_theme (w : env) (a : Args.t) (conf : dict)
  : option (list string) * result unit :=
  match open_w w (Args.theme a) with
  | Raise e => (None, Raise e)
  | Ok _ =>
      let '(done, r) := write_all w (Args.theme a) [] (theme_chunks a conf) in
      match close w (Args.theme a) done with
      | Raise e => (Some done, Raise e)
      | Ok _ => (Some done, r)
      end
  end.

(** [except Exception as e]: exit silently, or raise [e] again. *)
Definition handler (a : Args.t) (e : exn) : exit :=
  if Args.silent a then Exit 0 else Uncaught e.

(** The [if args.ncolors in [8, 4]] statement. *)
Definition dispatch (a : Args.t) : M unit :=
  if existsb (Z.eqb (Args.ncolors a)) [8; 4] then assign
  else lift (Raise (ValueError (Text "ncolors must be either 8 or 4."))).

(** The script from line 259 on, for parsed arguments [a]. *)
Definition main (a : Args.t) (w : env) : outcome :=
  let brightness := brightness a in
  match readlines w (Args.path a) with
  | Raise e => mkOutcome (handler a e) [] None
  | Ok colors_12d =>
      match decode_palette colors_12d with
      | (out, Raise e) => mkOutcome (Uncaught e) out None
      | (out, Ok colors) =>
          let '(colors, bright_colors) :=
            pools (Args.vibrant a) brightness colors in
          let conf := ColorConfModel in
          match dispatch a (mkState colors bright_colors conf) with
          | Raise e => mkOutcome (Uncaught e) out None
          | Ok (_, s) =>
              match write_theme w a (entries s) with
              | (file, Raise e) => mkOutcome (handler a e) out file
              | (file, Ok _) => mkOutcome (Exit 0) out file
              end
          end
      end
  end.

(** ** Definitions used to state the properties *)

(** The squared Euclidean distance between two triples. *)
Definition distance2 (a b : tuple) : Z :=
  match a, b with
  | [r; g; b'], [cr; cg; cb] => radicand (r, g, b') (cr, cg, cb)
  | _, _ => 0
  end.

(** The largest squared distance between two RGB triples. *)
Definition max_radicand : Z := 3 * 255 ^ 2.

(** The distance whose radicand is [n], as [pow_half] computes it. *)
Definition root (n : Z) : float :=
  PrimFloat.sqrt (SF2Prim (binary_normalize prec emax n 0 false)).

(** The order of [pair_ltb] with the radicand in place of its root, and the
    minimum for that order. *)
Definition exact_ltb (p q : Z * tuple) : bool :=
  if fst p =? fst q then tuple_ltb (snd p) (snd q) else fst p <? fst q.

Fixpoint exact_min_from (best : Z * tuple) (items : list (Z * tuple))
  : Z * tuple :=
  match items with
  | [] => best
  | x :: items' => exact_min_from (if exact_ltb x best then x else best) items'
  end.

(** [p] is not above [q] in that order. *)
Definition pair_le (p q : Z * tuple) : Prop := exact_ltb q p = false.

(** The radicand of a pair is a squared distance between RGB triples. *)
Definition in_range (p : Z * tuple) : Prop := 0 <= fst p <= max_radicand.

(** A pair with its radicand replaced by the root. *)
Definition rooted (p : Z * tuple) : float * tuple := (root (fst p), snd p).

(** The square root of the machine integer [i], as a float. *)
Definition root63 (i : PrimInt63.int) : float :=
  PrimFloat.sqrt (PrimFloat.of_uint63 i).

(** The roots of [fuel] consecutive machine integers from [i] on are finite
    floats, each above the one before by more than [2 ^ -10]; [prev] is the
    root before the first. *)
Fixpoint climbs (fuel : nat) (i : PrimInt63.int) (prev : float) : bool :=
  match fuel with
  | O => true
  | S fuel' =>
      negb (PrimFloat.is_infinity (PrimFloat.of_uint63 i))
      && PrimFloat.ltb prev (root63 i)
      && PrimFloat.ltb (PrimFloat.add prev 0x1p-10%float) (root63 i)
      && climbs fuel' (PrimInt63.add i 1%uint63) (root63 i)
  end.

(** The targets matched against one pool, drawn one after the other: the
    colors drawn, in order, and what is left of the pool. *)
Fixpoint draw_all (targets : list tuple) (pool : list tuple)
  : result (list tuple * list tuple) :=
  match targets with
  | [] => Ok ([], pool)
  | t :: targets' =>
      match closest_color t pool with
      | Raise e => Raise e
      | Ok (c, pool') =>
          match draw_all targets' pool' with
          | Raise e => Raise e
          | Ok (cs, rest) => Ok (c :: cs, rest)
          end
      end
  end.

Definition is_hex (c : ascii) : bool :=
  match hex_digit c with
  | Some _ => true
  | None => false
  end.

(** A wide-hex string: [#] and twelve hexadecimal digits. *)
Definition wide_hex (s : string) : bool :=
  match s with
  | String c digits =>
      Ascii.eqb c "#" && Nat.eqb (String.length digits) 12
      && forallb is_hex (list_ascii_of_string digits)
  | EmptyString => false
  end.

(** Decode, encode, decode again. *)
Definition redecode (s : string) : result tuple :=
  (rgb <- snd (tw_to_rgb s) ;;
   h <- rgb_to_hex rgb ;;
   snd (tw_to_rgb h))%result.

Definition set_ncolors (a : Args.t) (n : Z) : Args.t :=
  Args.mk (Args.path a) (Args.theme a) n (Args.brightness a)
          (Args.r a) (Args.g a) (Args.b a) (Args.vibrant a) (Args.silent a).

Definition set_silent (a : Args.t) (q : bool) : Args.t :=
  Args.mk (Args.path a) (Args.theme a) (Args.ncolors a) (Args.brightness a)
          (Args.r a) (Args.g a) (Args.b a) (Args.vibrant a) q.

(** The state the dispatch starts from, for a decoded palette. *)
Definition initial (a : Args.t) (decoded : list tuple) : state :=
  let '(colors, bright_colors) :=
    pools (Args.vibrant a) (brightness a) decoded in
  mkState colors bright_colors ColorConfModel.

(** The entries after the assignment, as the specification lists them. *)
Definition assigned (fg bg cursor : tuple) (normal bright : list tuple) : dict :=
  match normal, bright with
  | [c1; c2; c4; c5; c6; c7], [c8; c9; c10; c11; c12; c13; c14; c15] =>
      [ ("foreground", fg); ("background", bg); ("cursor", cursor);
        ("selection_foreground", bg); ("selection_background", fg);
        ("color0", bg); ("color1", c1); ("color2", c2); ("color3", cursor);
        ("color4", c4); ("color5", c5); ("color6", c6); ("color7", c7);
        ("color8", c8); ("color9", c9); ("color10", c10); ("color11", c11);
        ("color12", c12); ("color13", c13); ("color14", c14);
        ("color15", c15) ]
  | _, _ => []
  end.

(** *** Reference definitions, written from the specification *)

(** The stable minimum of the specification: among equal distances the
    entry met first in pool order wins. *)
Fixpoint first_min_from (best : float * tuple) (items : list (float * tuple))
  : float * tuple :=
  match items with
  | [] => best
  | x :: items' =>
      first_min_from (if PrimFloat.ltb (fst x) (fst best) then x else best)
                     items'
  end.

(** [closest_color] as the specification describes it. *)
Definition spec_closest_color (rgb : tuple) (colors : list tuple)
  : result (tuple * list tuple) :=
  (t <- unpack3 rgb ;;
   diffs <- color_diffs t colors ;;
   match diffs with
   | [] => Raise (ValueError MinEmpty)
   | x :: diffs' =>
       let result := snd (first_min_from x diffs') in
       colors' <- remove result colors ;;
       Ok (result, colors')
   end)%result.

(** The pools as the specification describes them: in vibrancy mode the
    bright pool is the normal pool brightened by twice the deltas. *)
Definition spec_pools (vibrant : bool) (deltas : tuple) (original : list tuple)
  : list tuple * list tuple :=
  if vibrant then
    let normal := List.map (fun c => brighten c deltas) original in
    (normal, List.map (fun c => brighten c (List.map (Z.mul 2) deltas)) normal)
  else
    (original, List.map (fun c => brighten c deltas) original).

(** *** A palette and a file system to run the script on *)

Definition example_colors : list tuple :=
  [ [0; 0; 0]; [200; 30; 30]; [30; 200; 30]; [200; 200; 30];
    [30; 30; 200]; [200; 30; 200]; [30; 200; 200]; [220; 220; 220] ].

Definition example_palette : list string :=
  List.map (fun l => l ++ nl)
    [ "#000000000000"; "#c8c81e1e1e1e"; "#1e1ec8c81e1e"; "#c8c8c8c81e1e";
      "#1e1e1e1ec8c8"; "#c8c81e1ec8c8"; "#1e1ec8c8c8c8"; "#dcdcdcdcdcdc" ].

(** Every file can be read and holds the example palette; every write
    succeeds. *)
Definition example_env : env :=
  mkEnv (fun _ => Ok example_palette) (fun _ => Ok tt)
        (fun _ _ _ => Ok tt) (fun _ _ => Ok tt).

(** No file can be opened. *)
Definition no_files : env :=
  mkEnv (fun _ => Raise (OSError (Text "No such file or directory")))
        (fun _ => Raise (OSError (Text "Permission denied")))
        (fun _ _ _ => Ok tt) (fun _ _ => Ok tt).

(** The palette can be read, the theme cannot be opened. *)
Definition read_only : env :=
  mkEnv (fun _ => Ok example_palette)
        (fun _ => Raise (OSError (Text "Permission denied")))
        (fun _ _ _ => Ok tt) (fun _ _ => Ok tt).

Definition example_args (ncolors : Z) (silent : bool) : Args.t :=
  Args.mk "palette.dp" "theme.conf" ncolors 20 0 0 0 false silent.

(** *** Enumerations for the proofs by cases *)

Definition all_ascii : list ascii := List.map ascii_of_nat (seq 0 256).

Definition all_channels : list Z := List.map Z.of_nat (seq 0 256).

Definition is_ok {A} (r : result A) : bool :=
  match r with
  | Ok _ => true
  | Raise _ => false
  end.

(** A pair of hexadecimal digits reads as the byte they spell. *)
Definition reads_byte (c d : ascii) : bool :=
  match hex_digit c, hex_digit d with
  | Some u, Some v =>
      match int16 (String c (String d EmptyString)) with
      | Ok n => n =? 16 * u + v
      | Raise _ => false
      end
  | _, _ => true
  end.

(** A channel is written with one or two characters. *)
Definition short_hex (v : Z) : bool :=
  let n := String.length (format_x v) in
  Nat.leb 1 n && Nat.leb n 2.

(** *** Definitions for the further properties *)

(** The arguments the parser lets through: the four brightness values lie
    between 0 and 255. *)
Definition valid_args (a : Args.t) : Prop :=
  channel (Args.brightness a) /\ channel (Args.r a) /\
  channel (Args.g a) /\ channel (Args.b a).

(** The theme file can be opened, written and closed without error. *)
Definition writable (w : env) (p : string) : Prop :=
  open_w w p = Ok tt /\
  (forall done chunk, write w p done chunk = Ok tt) /\
  (forall done, close w p done = Ok tt).

(** The state the assignment reaches from two pools holding the example
    colors. *)
Definition example_final : state :=
  mkState [] []
    (assigned [255; 255; 255] [0; 0; 0] [200; 200; 30]
       [[200; 30; 30]; [30; 200; 30]; [30; 30; 200];
        [200; 30; 200]; [30; 200; 200]; [220; 220; 220]]
       [[0; 0; 0]; [200; 30; 30]; [30; 200; 30]; [200; 200; 30];
        [30; 30; 200]; [200; 30; 200]; [30; 200; 200]; [220; 220; 220]]).

(** Whatever two characters [int] accepts in base 16, their value lies
    between -15 and 255. *)
Definition pair_in_range (c d : ascii) : bool :=
  match int16 (String c (String d EmptyString)) with
  | Ok n => (-15 <=? n) && (n <=? 255)
  | Raise _ => true
  end.

(** A digit or a capital from A to F. *)
Definition is_upper_hex (c : ascii) : bool :=
  ((48 <=? code c) && (code c <=? 57)) || ((65 <=? code c) && (code c <=? 70)).

(** The channel [v] is written in capital hexadecimal digits, two of them
    exactly when [v] is 16 or more. *)
Definition hex_shape (v : Z) : bool :=
  forallb is_upper_hex (list_ascii_of_string (upper (format_x v)))
  && Bool.eqb (Nat.eqb (String.length (format_x v)) 2) (16 <=? v).

(** Every character of [s] is whitespace for [strip]. *)
Definition blank (s : string) : bool :=
  forallb is_str_space (list_ascii_of_string s).

(** The two comment lines at the head of the theme. *)
Definition generated_by : string :=
  "### Color theme generated by nscde-kitty-integ.py." ++ nl.

Definition theme_of (a : Args.t) : string :=
  "### NsCDE theme: " ++ Args.path a ++ nl.

(** The text of a color that can be encoded. *)
Definition hex_text (v : tuple) : string :=
  match rgb_to_hex v with
  | Ok h => h
  | Raise _ => EmptyString
  end.

(** The line of the theme for one entry of the model. *)
Definition slot_text (kv : string * tuple) : string :=
  fst kv ++ " " ++ hex_text (snd kv) ++ nl.

(** [test] holds of [fuel] consecutive machine integers from [i] on. *)
Fixpoint count_up (test : PrimInt63.int -> bool) (fuel : nat)
    (i : PrimInt63.int) : bool :=
  match fuel with
  | O => true
  | S fuel' => test i && count_up test fuel' (PrimInt63.add i 1%uint63)
  end.

(** For the channels [r], [g], [b], with [p] the sum of the red and green
    terms of the luminance: the luminance exceeds one half exactly when
    [299 * r + 587 * g + 114 * b] exceeds 127500, unless the color is
    [(218, 58, 248)]. *)
Definition threshold_agrees (p : float) (r g b : PrimInt63.int) : bool :=
  let lum := PrimFloat.div (PrimFloat.add p (PrimFloat.mul 0.114 (PrimFloat.of_uint63 b))) 255 in
  let n := (299 * r + 587 * g + 114 * b)%uint63 in
  Bool.eqb (PrimFloat.ltb 0.5 lum) (Uint63.ltb 127500 n)
  || (Uint63.eqb r 218 && Uint63.eqb g 58 && Uint63.eqb b 248).

(** The same for every blue channel, given red and green; for every green
    and blue channel, given red. *)
Definition blue_row (r g : PrimInt63.int) : bool :=
  count_up
    (threshold_agrees
       (PrimFloat.add (PrimFloat.add 0 (PrimFloat.mul 0.299 (PrimFloat.of_uint63 r)))
                      (PrimFloat.mul 0.587 (PrimFloat.of_uint63 g)))
       r g)
    256 0%uint63.

Definition green_rows (r : PrimInt63.int) : bool :=
  count_up (blue_row r) 256 0%uint63.

(** The text color in integer arithmetic. *)
Definition text_color_exact (r g b : Z) : tuple :=
  if (127500 <? 299 * r + 587 * g + 114 * b)
     || ((r =? 218) && (g =? 58) && (b =? 248))
  then [0; 0; 0] else [255; 255; 255].

(** The state the script reaches on the example palette. *)
Definition example_run : state :=
  match dispatch (example_args 8 false)
                 (initial (example_args 8 false) example_colors) with
  | Ok (_, s) => s
  | Raise _ => mkState [] [] []
  end.

(** The chunks [chunks] are written one after the other without error, to a
    file that holds [done]. *)
Fixpoint writes_ok (w : env) (p : string) (done chunks : list string) : Prop :=
  match chunks with
  | [] => True
  | c :: chunks' =>
      write w p done c = Ok tt /\ writes_ok w p (done ++ [c])%list chunks'
  end.

(** The palette can be read and the theme opened; the disk is full once the
    two comment lines are written. *)
Definition disk_full : env :=
  mkEnv (fun _ => Ok example_palette) (fun _ => Ok tt)
        (fun _ done _ =>
           if Nat.leb 2 (List.length done)
           then Raise (OSError (Text "No space left on device"))
           else Ok tt)
        (fun _ _ => Ok tt).

(** Every write succeeds, the close at the end of the block does not. *)
Definition bad_close : env :=
  mkEnv (fun _ => Ok example_palette) (fun _ => Ok tt)
        (fun _ _ _ => Ok tt)
        (fun _ _ => Raise (OSError (Text "Input/output error"))).

(** * Properties *)

(** ** [brighten] *)

Ltac split_tests :=
  repeat match goal with
         | |- context [?x <? ?y] => destruct (Z.ltb_spec x y)
         | |- context [?x <=? ?y] => destruct (Z.leb_spec x y)
         end.

Ltac brighten_cases :=
  unfold brighten, any, round; cbn [map2 existsb List.map];
  rewrite ?Z.gtb_ltb; split_tests; cbn [orb]; cbv iota;
  cbn [existsb List.map]; split_tests; cbn [orb]; cbv iota.

Lemma rgb8_intro (r g b : Z) :
  channel r -> channel g -> channel b -> rgb8 [r; g; b].
Proof. intros Hr Hg Hb. exists r, g, b. auto. Qed.

Lemma rgb8_b (t : tuple) : rgb8 t <-> rgb8b t = true.
Proof.
  split.
  - intros (r & g & b & -> & Hr & Hg & Hb). unfold rgb8b, channelb, channel in *.
    repeat (apply andb_true_intro; split); lia.
  - destruct t as [|r [|g [|b [|x t]]]]; cbn; try discriminate.
    unfold channelb. intros H.
    repeat (apply andb_prop in H; destruct H as [H ?]).
    apply rgb8_intro; unfold channel; lia.
Qed.

(** C4.  On an RGB triple and a triple of deltas (channels in 0..255),
    [brighten] returns the channel-wise sum when no sum exceeds 255;
    otherwise the channel-wise difference when no difference is negative;
    otherwise the color it was given.  The result is always one of these
    three: no channel is clamped.  The three examples of the specification
    evaluate as it says. *)
Theorem brighten_three_way (r g b dr dg db : Z) :
  rgb8 [r; g; b] -> rgb8 [dr; dg; db] ->
  let rgb := [r; g; b] in
  let added := [r + dr; g + dg; b + db] in
  let dimmed := [r - dr; g - dg; b - db] in
  let fits := r + dr <= 255 /\ g + dg <= 255 /\ b + db <= 255 in
  let positive := 0 <= r - dr /\ 0 <= g - dg /\ 0 <= b - db in
  (fits -> brighten rgb [dr; dg; db] = added) /\
  (~ fits -> positive -> brighten rgb [dr; dg; db] = dimmed) /\
  (~ fits -> ~ positive -> brighten rgb [dr; dg; db] = rgb) /\
  (brighten rgb [dr; dg; db] = added \/
   brighten rgb [dr; dg; db] = dimmed \/
   brighten rgb [dr; dg; db] = rgb) /\
  brighten [250; 250; 250] [20; 20; 20] = [230; 230; 230] /\
  brighten [0; 0; 0] [20; 20; 20] = [20; 20; 20] /\
  brighten [250; 5; 5] [20; 20; 20] = [250; 5; 5].
Proof.
  intros (r0 & g0 & b0 & E & Hr & Hg & Hb) (r1 & g1 & b1 & E' & Hdr & Hdg & Hdb).
  injection E as <- <- <-. injection E' as <- <- <-.
  unfold channel in *. cbv zeta.
  repeat split; try reflexivity.
  - intros (? & ? & ?). brighten_cases; try reflexivity; lia.
  - intros Hn (? & ? & ?). brighten_cases; try reflexivity; lia.
  - intros Hn Hp. brighten_cases; try reflexivity; lia.
  - brighten_cases; auto; lia.
Qed.

Lemma brighten_three_way_witness :
  brighten [250; 5; 5] [20; 20; 20] = [250; 5; 5].
Proof.
  assert (H : rgb8 [250; 5; 5]) by (apply rgb8_b; reflexivity).
  assert (D : rgb8 [20; 20; 20]) by (apply rgb8_b; reflexivity).
  pose proof (brighten_three_way 250 5 5 20 20 20 H D) as T.
  cbv zeta in T.
  apply (proj1 (proj2 (proj2 T))); lia.
Defined.

(** C10.  On an RGB triple and deltas with channels in 0..255, every channel
    of the result of [brighten] is in 0..255. *)
Theorem brighten_in_range (rgb values : tuple) :
  rgb8 rgb -> rgb8 values -> rgb8 (brighten rgb values).
Proof.
  intros (r & g & b & -> & Hr & Hg & Hb) (dr & dg & db & -> & Hdr & Hdg & Hdb).
  unfold channel in *.
  brighten_cases; apply rgb8_intro; unfold channel; lia.
Qed.

Lemma brighten_in_range_witness : rgb8 (brighten [250; 5; 5] [20; 20; 20]).
Proof.
  apply brighten_in_range; apply rgb8_b; reflexivity.
Defined.

(** ** [text_color] *)

Lemma all_channels_complete (c : Z) : channel c -> In c all_channels.
Proof.
  intros [H0 H1]. unfold all_channels.
  rewrite <- (Z2Nat.id c) by exact H0.
  apply in_map, in_seq. lia.
Qed.

(** An 8-bit channel converts to a float without overflow. *)
Lemma float_of_channel (c : Z) :
  channel c -> exists f, float_of_int c = Ok f.
Proof.
  intros H. apply all_channels_complete in H.
  assert (A : forallb (fun z => is_ok (float_of_int z)) all_channels = true)
    by (vm_compute; reflexivity).
  rewrite forallb_forall in A. specialize (A c H).
  destruct (float_of_int c) as [f|e]; [eauto | discriminate].
Qed.

Lemma luminance_rgb8 (r g b : Z) :
  rgb8 [r; g; b] ->
  exists fr fg fb,
    float_of_int r = Ok fr /\ float_of_int g = Ok fg /\ float_of_int b = Ok fb /\
    luminance [r; g; b] = Ok ((0 + 0.299 * fr + 0.587 * fg + 0.114 * fb) / 255)%float.
Proof.
  intros (r0 & g0 & b0 & E & Hr & Hg & Hb). injection E as <- <- <-.
  destruct (float_of_channel r Hr) as [fr Er].
  destruct (float_of_channel g Hg) as [fg Eg].
  destruct (float_of_channel b Hb) as [fb Eb].
  exists fr, fg, fb. repeat split; trivial.
  unfold luminance, luminance_weights, mul. cbn [combine mapM fst snd bind].
  rewrite Er, Eg, Eb. reflexivity.
Qed.

Lemma text_color_total (bg : tuple) :
  rgb8 bg -> exists fg, text_color bg = Ok fg /\ (fg = BLACK \/ fg = WHITE).
Proof.
  intros H. pose proof H as (r & g & b & -> & _).
  destruct (luminance_rgb8 r g b H) as (fr & fg & fb & _ & _ & _ & E).
  unfold text_color. rewrite E. cbn [bind].
  eexists. split; [reflexivity|].
  destruct (PrimFloat.ltb _ _); auto.
Qed.

(** C9.  For an RGB triple [(R, G, B)] the luminance is
    [(0.299 * R + 0.587 * G + 0.114 * B) / 255], computed in binary64 from
    left to right, and [text_color] returns black exactly when that number
    is greater than 0.5 and white otherwise, also when it equals 0.5 (as for
    [(1, 173, 225)]).  White gives black and black gives white. *)
Theorem text_color_threshold (r g b : Z) :
  rgb8 [r; g; b] ->
  (exists fr fg fb lum,
     float_of_int r = Ok fr /\ float_of_int g = Ok fg /\ float_of_int b = Ok fb /\
     lum = ((0 + 0.299 * fr + 0.587 * fg + 0.114 * fb) / 255)%float /\
     luminance [r; g; b] = Ok lum /\
     (PrimFloat.ltb 0.5 lum = true -> text_color [r; g; b] = Ok [0; 0; 0]) /\
     (PrimFloat.ltb 0.5 lum = false -> text_color [r; g; b] = Ok [255; 255; 255])) /\
  text_color [255; 255; 255] = Ok [0; 0; 0] /\
  text_color [0; 0; 0] = Ok [255; 255; 255] /\
  luminance [1; 173; 225] = Ok 0.5%float /\
  text_color [1; 173; 225] = Ok [255; 255; 255].
Proof.
  intros H.
  destruct (luminance_rgb8 r g b H) as (fr & fg & fb & Er & Eg & Eb & E).
  split; [|repeat split; vm_compute; reflexivity].
  exists fr, fg, fb. eexists. repeat split; try eassumption.
  - unfold text_color. rewrite E. cbn [bind]. intros ->. reflexivity.
  - unfold text_color. rewrite E. cbn [bind]. intros ->. reflexivity.
Qed.

Lemma text_color_threshold_witness :
  text_color [255; 255; 255] = Ok [0; 0; 0].
Proof.
  assert (H : rgb8 [255; 255; 255]) by (apply rgb8_b; reflexivity).
  exact (proj1 (proj2 (text_color_threshold 255 255 255 H))).
Defined.

(** The threshold is taken on the computed float.  For [(218, 58, 248)] the
    exact luminance is one half ([299 * 218 + 587 * 58 + 114 * 248] is
    [127500]), the computed one is the next float above it, and the text is
    black. *)
Remark text_color_rounding :
  299 * 218 + 587 * 58 + 114 * 248 = 127500 /\
  luminance [218; 58; 248] = Ok 0x1.0000000000001p-1%float /\
  text_color [218; 58; 248] = Ok [0; 0; 0].
Proof. repeat split; vm_compute; reflexivity. Qed.

(** ** [closest_color] *)

Section TupleOrder.

Lemma tuple_ltb_irrefl (a : tuple) : tuple_ltb a a = false.
Proof.
  induction a as [|x a IH]; cbn; [reflexivity|].
  now rewrite Z.eqb_refl.
Qed.

Lemma tuple_ltb_trans (a b c : tuple) :
  tuple_ltb a b = true -> tuple_ltb b c = true -> tuple_ltb a c = true.
Proof.
  revert b c. induction a as [|x a IH]; intros [|y b] [|z c]; cbn;
    try congruence.
  destruct (Z.eqb_spec x y), (Z.eqb_spec y z), (Z.eqb_spec x z);
    try lia; subst; rewrite ?Z.ltb_lt; try lia; eauto.
Qed.

Lemma tuple_ltb_total (a b : tuple) :
  tuple_ltb a b = false -> a = b \/ tuple_ltb b a = true.
Proof.
  revert b. induction a as [|x a IH]; intros [|y b]; cbn; auto;
    try discriminate.
  destruct (Z.eqb_spec x y), (Z.eqb_spec y x); try lia.
  subst. intros H. destruct (IH b H) as [-> | H']; auto.
Qed.

Lemma exact_ltb_irrefl (p : Z * tuple) : exact_ltb p p = false.
Proof. unfold exact_ltb. rewrite Z.eqb_refl. apply tuple_ltb_irrefl. Qed.

Lemma exact_ltb_trans (p q s : Z * tuple) :
  exact_ltb p q = true -> exact_ltb q s = true -> exact_ltb p s = true.
Proof.
  unfold exact_ltb.
  destruct (Z.eqb_spec (fst p) (fst q)), (Z.eqb_spec (fst q) (fst s)),
    (Z.eqb_spec (fst p) (fst s)); try lia; rewrite ?Z.ltb_lt; try lia.
  apply tuple_ltb_trans.
Qed.

Lemma exact_ltb_total (p q : Z * tuple) :
  exact_ltb p q = false -> p = q \/ exact_ltb q p = true.
Proof.
  unfold exact_ltb. destruct p as [d c], q as [d' c']; cbn.
  destruct (Z.eqb_spec d d'), (Z.eqb_spec d' d); try lia.
  subst. intros H. destruct (tuple_ltb_total _ _ H) as [-> | H']; auto.
Qed.

Lemma pair_le_refl (p : Z * tuple) : pair_le p p.
Proof. apply exact_ltb_irrefl. Qed.

Lemma pair_lt_le (p q : Z * tuple) : exact_ltb p q = true -> pair_le p q.
Proof.
  intros H. unfold pair_le. destruct (exact_ltb q p) eqn:E; [|reflexivity].
  pose proof (exact_ltb_trans _ _ _ H E) as T.
  now rewrite exact_ltb_irrefl in T.
Qed.

Lemma pair_le_trans (p q s : Z * tuple) :
  pair_le p q -> pair_le q s -> pair_le p s.
Proof.
  unfold pair_le. intros H1 H2.
  destruct (exact_ltb_total _ _ H1) as [-> | L1]; [assumption|].
  destruct (exact_ltb_total _ _ H2) as [-> | L2]; [assumption|].
  apply pair_lt_le. eapply exact_ltb_trans; eassumption.
Qed.

End TupleOrder.

Lemma exact_min_from_le_best (best : Z * tuple) (items : list (Z * tuple)) :
  pair_le (exact_min_from best items) best.
Proof.
  revert best. induction items as [|x items IH]; intros best; cbn.
  - apply pair_le_refl.
  - eapply pair_le_trans; [apply IH|].
    destruct (exact_ltb x best) eqn:E; [now apply pair_lt_le | apply pair_le_refl].
Qed.

Lemma exact_min_from_le_item (best : Z * tuple) (items : list (Z * tuple)) (y : Z * tuple) :
  In y items -> pair_le (exact_min_from best items) y.
Proof.
  revert best. induction items as [|x items IH]; intros best; cbn; [tauto|].
  intros [<- | H]; [|now apply IH].
  eapply pair_le_trans; [apply exact_min_from_le_best|].
  destruct (exact_ltb x best) eqn:E; [apply pair_le_refl | exact E].
Qed.

Lemma exact_min_from_in (best : Z * tuple) (items : list (Z * tuple)) :
  In (exact_min_from best items) (best :: items).
Proof.
  revert best. induction items as [|x items IH]; intros best; cbn; [auto|].
  destruct (IH (if exact_ltb x best then x else best)) as [H | H]; [|auto].
  rewrite <- H. destruct (exact_ltb x best); auto.
Qed.

Lemma tuple_eqb_eq (a b : tuple) : tuple_eqb a b = true <-> a = b.
Proof.
  unfold tuple_eqb. destruct (list_eq_dec Z.eq_dec a b); split; congruence.
Qed.

Lemma remove_in (x : tuple) (l : list tuple) :
  In x l ->
  exists before after,
    l = (before ++ x :: after)%list /\ ~ In x before /\
    remove x l = Ok (before ++ after)%list.
Proof.
  induction l as [|y l IH]; cbn; [tauto|]. intros H.
  destruct (tuple_eqb y x) eqn:E.
  - apply tuple_eqb_eq in E. subst. exists [], l. cbn. auto.
  - assert (N : y <> x) by (intros ->; rewrite (proj2 (tuple_eqb_eq x x)) in E; congruence).
    destruct H as [H | H]; [contradiction|].
    destruct (IH H) as (before & after & -> & Hn & ->).
    exists (y :: before), after. cbn. repeat split; trivial.
    intros [? | ?]; auto.
Qed.

(** *** The roots of the radicands

    The floats [color_diff] returns for RGB triples are the roots of the
    integers up to [max_radicand]; they are finite and strictly increasing,
    so [pair_ltb] orders them as [exact_ltb] orders the radicands. *)

Ltac fold_compare :=
  repeat match goal with
         | |- context [Pos.compare_cont Eq ?a ?b] =>
             change (Pos.compare_cont Eq a b) with (Pos.compare a b)
         | H : context [Pos.compare_cont Eq ?a ?b] |- _ =>
             change (Pos.compare_cont Eq a b) with (Pos.compare a b) in H
         end.

Ltac split_compare :=
  repeat match goal with
         | H : context [Z.compare ?a ?b] |- _ => destruct (Z.compare_spec a b)
         | |- context [Z.compare ?a ?b] => destruct (Z.compare_spec a b)
         | H : context [Pos.compare ?a ?b] |- _ => destruct (Pos.compare_spec a b)
         | |- context [Pos.compare ?a ?b] => destruct (Pos.compare_spec a b)
         end.

Lemma SFltb_trans (f g h : spec_float) :
  SFltb f g = true -> SFltb g h = true -> SFltb f h = true.
Proof.
  unfold SFltb, SFcompare.
  destruct f as [[]|[]| |[] m1 e1], g as [[]|[]| |[] m2 e2],
    h as [[]|[]| |[] m3 e3]; intros H1 H2;
    try discriminate H1; try discriminate H2; try reflexivity;
    fold_compare; split_compare;
    try discriminate H1; try discriminate H2; try reflexivity; subst; lia.
Qed.

Lemma SFltb_strict (f g : spec_float) :
  SFltb f g = true ->
  SFltb g f = false /\ SFeqb f g = false /\ SFeqb g f = false /\
  SFltb f f = false /\ SFeqb f f = true /\
  SFltb g g = false /\ SFeqb g g = true.
Proof.
  unfold SFltb, SFeqb, SFcompare.
  destruct f as [[]|[]| |[] m1 e1], g as [[]|[]| |[] m2 e2]; intros H1;
    try discriminate H1; fold_compare;
    rewrite ?Z.compare_refl, ?Pos.compare_refl;
    try (repeat split; reflexivity);
    split_compare; try discriminate H1; try lia;
    repeat split; try reflexivity; lia.
Qed.

Lemma float_ltb_trans (x y z : float) :
  PrimFloat.ltb x y = true -> PrimFloat.ltb y z = true ->
  PrimFloat.ltb x z = true.
Proof. rewrite !FloatAxioms.ltb_spec. apply SFltb_trans. Qed.

Lemma float_ltb_strict (x y : float) :
  PrimFloat.ltb x y = true ->
  PrimFloat.ltb y x = false /\ PrimFloat.eqb x y = false /\
  PrimFloat.eqb y x = false /\
  PrimFloat.ltb x x = false /\ PrimFloat.eqb x x = true /\
  PrimFloat.ltb y y = false /\ PrimFloat.eqb y y = true.
Proof. rewrite !FloatAxioms.ltb_spec, !FloatAxioms.eqb_spec. apply SFltb_strict. Qed.

Lemma wB_value : wB = 9223372036854775808.
Proof. reflexivity. Qed.

Lemma climbs_table :
  climbs (Z.to_nat max_radicand) 1%uint63 (root63 0%uint63) = true.
Proof. vm_compute. reflexivity. Qed.

Lemma climbs_spec (fuel : nat) :
  forall i prev,
    climbs fuel i prev = true ->
    to_Z i + Z.of_nat fuel < wB ->
    forall n, to_Z i <= n < to_Z i + Z.of_nat fuel ->
      let before := if n =? to_Z i then prev else root63 (of_Z (n - 1)) in
      PrimFloat.is_infinity (PrimFloat.of_uint63 (of_Z n)) = false /\
      PrimFloat.ltb before (root63 (of_Z n)) = true /\
      PrimFloat.ltb (PrimFloat.add before 0x1p-10%float) (root63 (of_Z n)) = true.
Proof.
  induction fuel as [|fuel IH]; intros i prev H Hb n Hn; [lia|].
  cbn [climbs] in H.
  apply andb_prop in H. destruct H as [H Hrec].
  apply andb_prop in H. destruct H as [H Hsep].
  apply andb_prop in H. destruct H as [Hfin Hlt].
  apply negb_true_iff in Hfin.
  assert (Ei : to_Z (i + 1)%uint63 = to_Z i + 1).
  { rewrite add_spec, to_Z_1. apply Z.mod_small.
    pose proof (to_Z_bounded i). lia. }
  cbv zeta. destruct (Z.eqb_spec n (to_Z i)) as [->|Hne].
  - rewrite of_to_Z. auto.
  - specialize (IH (i + 1)%uint63 (root63 i) Hrec).
    rewrite Ei in IH. specialize (IH ltac:(lia) n ltac:(lia)). cbv zeta in IH.
    destruct (Z.eqb_spec n (to_Z i + 1)) as [E|Hne']; [|exact IH].
    replace (n - 1) with (to_Z i) by lia. now rewrite of_to_Z.
Qed.

Lemma root_root63 (n : Z) : 0 <= n < wB -> root n = root63 (of_Z n).
Proof.
  intros H. unfold root, root63. f_equal.
  rewrite <- (SF2Prim_Prim2SF (PrimFloat.of_uint63 (of_Z n))).
  now rewrite of_uint63_spec, of_Z_spec, Z.mod_small.
Qed.

(** The roots up to [max_radicand]: each is computed without overflow and
    lies more than [2 ^ -10] above the root before it. *)
Lemma root_step (n : Z) :
  0 <= n <= max_radicand ->
  pow_half n = Ok (root n) /\
  (1 <= n ->
   PrimFloat.ltb (root (n - 1)) (root n) = true /\
   PrimFloat.ltb (PrimFloat.add (root (n - 1)) 0x1p-10%float) (root n) = true).
Proof.
  intros Hn. pose proof wB_value as W.
  assert (M : max_radicand = 195075) by reflexivity.
  destruct (Z.eq_dec n 0) as [->|Hpos].
  { split; [vm_compute; reflexivity | lia]. }
  pose proof (climbs_spec _ _ _ climbs_table) as T.
  rewrite to_Z_1, Z2Nat.id in T by lia.
  specialize (T ltac:(lia) n ltac:(lia)). cbv zeta in T.
  destruct T as (Tfin & Tlt & Tsep).
  assert (E : SF2Prim (binary_normalize prec emax n 0 false) =
              PrimFloat.of_uint63 (of_Z n)).
  { rewrite <- (SF2Prim_Prim2SF (PrimFloat.of_uint63 (of_Z n))).
    now rewrite of_uint63_spec, of_Z_spec, Z.mod_small by lia. }
  split.
  - unfold pow_half, float_of_int, root. rewrite E, Tfin. reflexivity.
  - intros _. rewrite (root_root63 n), (root_root63 (n - 1)) by lia.
    destruct (Z.eqb_spec n 1) as [->|Hne]; auto.
Qed.

Lemma root_lt (n m : Z) :
  0 <= n -> n < m -> m <= max_radicand ->
  PrimFloat.ltb (root n) (root m) = true.
Proof.
  intros Hn Hlt Hm.
  assert (G : forall k : nat, n + 1 + Z.of_nat k <= max_radicand ->
                PrimFloat.ltb (root n) (root (n + 1 + Z.of_nat k)) = true).
  { induction k as [|k IH]; intros Hk.
    - destruct (root_step (n + 1 + Z.of_nat 0) ltac:(lia)) as [_ S].
      destruct (S ltac:(lia)) as [S' _].
      replace (n + 1 + Z.of_nat 0 - 1) with n in S' by lia. exact S'.
    - eapply float_ltb_trans; [apply IH; lia|].
      destruct (root_step (n + 1 + Z.of_nat (S k)) ltac:(lia)) as [_ S'].
      destruct (S' ltac:(lia)) as [S'' _].
      replace (n + 1 + Z.of_nat (S k) - 1) with (n + 1 + Z.of_nat k) in S'' by lia.
      exact S''. }
  specialize (G (Z.to_nat (m - n - 1))).
  rewrite Z2Nat.id in G by lia.
  replace (n + 1 + (m - n - 1)) with m in G by lia. apply G. lia.
Qed.

Lemma root_compare (n m : Z) :
  0 <= n <= max_radicand -> 0 <= m <= max_radicand ->
  PrimFloat.ltb (root n) (root m) = (n <? m) /\
  PrimFloat.eqb (root n) (root m) = (n =? m).
Proof.
  intros Hn Hm.
  assert (M : max_radicand = 195075) by reflexivity.
  destruct (Z.lt_trichotomy n m) as [L | [-> | L]].
  - pose proof (root_lt n m ltac:(lia) L ltac:(lia)) as R.
    destruct (float_ltb_strict _ _ R) as (_ & E & _).
    rewrite R, E. split; symmetry; [apply Z.ltb_lt | apply Z.eqb_neq]; lia.
  - rewrite Z.ltb_irrefl, Z.eqb_refl.
    destruct (Z.eq_dec m 0) as [->|Hpos].
    + pose proof (root_lt 0 1 ltac:(lia) ltac:(lia) ltac:(lia)) as R.
      destruct (float_ltb_strict (root 0) (root 1) R) as (_ & _ & _ & A & B & _).
      auto.
    + pose proof (root_lt 0 m ltac:(lia) ltac:(lia) ltac:(lia)) as R.
      destruct (float_ltb_strict (root 0) (root m) R) as (_ & _ & _ & _ & _ & A & B).
      auto.
  - pose proof (root_lt m n ltac:(lia) L ltac:(lia)) as R.
    destruct (float_ltb_strict _ _ R) as (A & _ & B & _).
    rewrite A, B. split; symmetry; [apply Z.ltb_ge | apply Z.eqb_neq]; lia.
Qed.

(** The floats of [color_diff] lie far apart: a power function that is off
    by less than [2 ^ -11] orders them as the square root does. *)
Remark roots_separated (n : Z) :
  0 <= n < max_radicand ->
  PrimFloat.ltb (PrimFloat.add (root n) 0x1p-10%float) (root (n + 1)) = true.
Proof.
  intros Hn. destruct (root_step (n + 1) ltac:(lia)) as [_ S].
  destruct (S ltac:(lia)) as [_ S'].
  now replace (n + 1 - 1) with n in S' by lia.
Qed.

Lemma rooted_ltb (p q : Z * tuple) :
  in_range p -> in_range q -> pair_ltb (rooted p) (rooted q) = exact_ltb p q.
Proof.
  intros Hp Hq. unfold pair_ltb, exact_ltb, rooted. cbn [fst snd].
  destruct (root_compare (fst p) (fst q) Hp Hq) as [-> ->]. reflexivity.
Qed.

Lemma min_from_rooted (items : list (Z * tuple)) :
  Forall in_range items ->
  forall best, in_range best ->
    min_from (rooted best) (List.map rooted items) =
    rooted (exact_min_from best items).
Proof.
  induction 1 as [|x items Hx _ IH]; intros best Hb; cbn; [reflexivity|].
  rewrite (rooted_ltb x best Hx Hb).
  destruct (exact_ltb x best); now apply IH.
Qed.

Lemma distance2_range (a b : tuple) :
  rgb8 a -> rgb8 b -> 0 <= distance2 a b <= max_radicand.
Proof.
  intros (r & g & b0 & -> & Hr & Hg & Hb) (cr & cg & cb & -> & Hcr & Hcg & Hcb).
  unfold distance2, radicand, max_radicand, channel in *.
  rewrite !Z.pow_2_r. nia.
Qed.

Lemma color_diffs_rgb8 (r g b : Z) (colors : list tuple) :
  rgb8 [r; g; b] -> Forall rgb8 colors ->
  color_diffs (r, g, b) colors =
  Ok (List.map rooted (List.map (fun c => (distance2 [r; g; b] c, c)) colors)).
Proof.
  intros Hrgb. induction 1 as [|c colors Hc _ IH]; [reflexivity|].
  pose proof (distance2_range _ _ Hrgb Hc) as Hd.
  destruct Hc as (cr & cg & cb & -> & _).
  unfold color_diffs in *. cbn [mapM unpack3 bind]. rewrite IH.
  unfold color_diff. cbn [distance2] in Hd.
  destruct (root_step _ Hd) as [-> _]. reflexivity.
Qed.

(** What [closest_color] does on a non-empty pool of triples. *)
Lemma closest_color_spec (rgb : tuple) (colors : list tuple) :
  rgb8 rgb -> Forall rgb8 colors -> colors <> [] ->
  exists c before after,
    closest_color rgb colors = Ok (c, (before ++ after)%list) /\
    colors = (before ++ c :: after)%list /\
    ~ In c before /\
    (forall x, In x colors -> distance2 rgb c <= distance2 rgb x) /\
    (forall x, In x colors -> distance2 rgb x = distance2 rgb c ->
               x = c \/ tuple_ltb c x = true).
Proof.
  intros Hrgb Hall Hne. pose proof Hrgb as (r & g & b & -> & _).
  unfold closest_color. cbn [unpack3 bind].
  rewrite (color_diffs_rgb8 r g b colors Hrgb Hall). cbn [bind].
  set (f := fun c => (distance2 [r; g; b] c, c)).
  assert (Hf : forall c, rgb8 c -> in_range (f c))
    by (intros c Hc; apply (distance2_range _ _ Hrgb Hc)).
  destruct colors as [|c0 colors]; [congruence|]. cbn [List.map min bind].
  rewrite min_from_rooted.
  2:{ apply Forall_map. apply Forall_inv_tail in Hall.
      eapply Forall_impl; [|exact Hall]. exact Hf. }
  2:{ apply Hf. exact (Forall_inv Hall). }
  set (m := exact_min_from (f c0) (List.map f colors)).
  assert (Hin : In m (List.map f (c0 :: colors))) by apply exact_min_from_in.
  apply in_map_iff in Hin. destruct Hin as (c & Ec & Hc).
  assert (Hle : forall x, In x (c0 :: colors) -> pair_le m (f x)).
  { intros x [<- | Hx]; [apply exact_min_from_le_best|].
    apply exact_min_from_le_item. now apply in_map. }
  rewrite <- Ec in *. clear m Ec. cbn [snd rooted f].
  destruct (remove_in c (c0 :: colors) Hc) as (before & after & E & Hn & ->).
  exists c, before, after. cbn [bind]. repeat split; trivial.
  - intros x Hx. specialize (Hle x Hx). unfold pair_le, exact_ltb, f in Hle.
    cbn [fst snd] in Hle.
    destruct (Z.eqb_spec (distance2 [r; g; b] x) (distance2 [r; g; b] c)); [lia|].
    apply Z.ltb_ge in Hle. lia.
  - intros x Hx Hd. specialize (Hle x Hx). unfold pair_le, exact_ltb, f in Hle.
    cbn [fst snd] in Hle. rewrite Hd, Z.eqb_refl in Hle.
    destruct (tuple_ltb_total _ _ Hle); auto.
Qed.

(** C1, as amended.  On a non-empty pool of RGB triples [closest_color]
    returns an entry at minimum Euclidean distance from the target; among
    the entries at that distance it returns the smallest in the order of
    tuples (red first, then green, then blue), wherever it stands in the
    pool; and it leaves the pool without the first occurrence of the color
    returned.  The example of the specification evaluates as it says. *)
Theorem closest_color_minimum (rgb : tuple) (colors : list tuple) :
  rgb8 rgb -> Forall rgb8 colors -> colors <> [] ->
  (exists c before after,
     closest_color rgb colors = Ok (c, (before ++ after)%list) /\
     colors = (before ++ c :: after)%list /\
     ~ In c before /\
     (forall x, In x colors -> distance2 rgb c <= distance2 rgb x) /\
     (forall x, In x colors -> distance2 rgb x = distance2 rgb c ->
                x = c \/ tuple_ltb c x = true)) /\
  closest_color [0; 0; 0] [[10; 10; 10]; [200; 200; 200]] =
  Ok ([10; 10; 10], [[200; 200; 200]]).
Proof.
  intros Hr Hall Hne. split; [|reflexivity].
  now apply closest_color_spec.
Qed.

Lemma closest_color_minimum_witness :
  closest_color [0; 0; 0] [[10; 10; 10]; [200; 200; 200]] =
  Ok ([10; 10; 10], [[200; 200; 200]]).
Proof.
  refine (proj2 (closest_color_minimum [0; 0; 0]
                   [[10; 10; 10]; [200; 200; 200]] _ _ _)).
  - apply rgb8_b; reflexivity.
  - repeat (constructor; [apply rgb8_b; reflexivity|]). constructor.
  - discriminate.
Defined.

(** C1 as stated fails: [(10, 0, 0)] and [(0, 10, 0)] are both at distance
    10 from black; the first minimum in pool order is [(10, 0, 0)], and
    [closest_color] returns [(0, 10, 0)], the smaller tuple. *)
Lemma closest_color_not_first_minimum :
  distance2 [0; 0; 0] [10; 0; 0] = distance2 [0; 0; 0] [0; 10; 0] /\
  closest_color [0; 0; 0] [[10; 0; 0]; [0; 10; 0]] =
  Ok ([0; 10; 0], [[10; 0; 0]]) /\
  spec_closest_color [0; 0; 0] [[10; 0; 0]; [0; 10; 0]] =
  Ok ([10; 0; 0], [[0; 10; 0]]) /\
  closest_color [0; 0; 0] [[10; 0; 0]; [0; 10; 0]] <>
  spec_closest_color [0; 0; 0] [[10; 0; 0]; [0; 10; 0]].
Proof. repeat split; try reflexivity. vm_compute. discriminate. Qed.

(** ** Slot assignment *)

(** One draw from a pool of triples that is not empty. *)
Lemma closest_color_draw (rgb : tuple) (l : list tuple) :
  rgb8 rgb -> Forall rgb8 l -> (1 <= List.length l)%nat ->
  exists c rest,
    closest_color rgb l = Ok (c, rest) /\ rgb8 c /\ Forall rgb8 rest /\
    List.length l = S (List.length rest).
Proof.
  intros Hr Hall Hlen.
  destruct (closest_color_spec rgb l Hr Hall) as (c & before & after & E & -> & _).
  { destruct l; [cbn in Hlen; lia | discriminate]. }
  exists c, (before ++ after)%list.
  apply Forall_app in Hall. destruct Hall as [Hb Ha].
  pose proof (Forall_inv Ha) as Hc. apply Forall_inv_tail in Ha.
  repeat split; trivial.
  - apply Forall_app; auto.
  - rewrite !length_app. cbn. lia.
Qed.

Lemma draw_all_ok (targets : list tuple) :
  Forall rgb8 targets ->
  forall l, Forall rgb8 l -> (List.length targets <= List.length l)%nat ->
  exists drawn rest,
    draw_all targets l = Ok (drawn, rest) /\
    List.length drawn = List.length targets /\
    Forall rgb8 drawn /\ Forall rgb8 rest /\
    List.length l = (List.length targets + List.length rest)%nat.
Proof.
  induction 1 as [|t targets Ht _ IH]; intros l Hall Hlen; cbn in *.
  - exists [], l. auto.
  - destruct (closest_color_draw t l Ht Hall) as (c & l' & E & Hc & Hl' & El);
      [lia|].
    destruct (IH l' Hl') as (drawn & rest & E' & Ed & Hd & Hrest & El'); [lia|].
    exists (c :: drawn), rest. rewrite E, E'. cbn.
    repeat split; auto; lia.
Qed.

Lemma draw_all_cons (t : tuple) (ts : list tuple) (l : list tuple)
    (c : tuple) (cs rest : list tuple) :
  draw_all (t :: ts) l = Ok (c :: cs, rest) ->
  exists l', closest_color t l = Ok (c, l') /\ draw_all ts l' = Ok (cs, rest).
Proof.
  cbn [draw_all]. destruct (closest_color t l) as [[c' l']|e]; [|discriminate].
  destruct (draw_all ts l') as [[cs' rest']|e] eqn:E; [|discriminate].
  intros H. injection H as <- <- <-. exists l'. split; [reflexivity | exact E].
Qed.

Lemma draw_all_nil (l rest : list tuple) :
  draw_all [] l = Ok ([], rest) -> l = rest.
Proof. cbn. congruence. Qed.

Lemma hues_rgb8 :
  Forall rgb8 [BLACK; RED; GREEN; YELLOW; BLUE; MAGENTA; CYAN; WHITE].
Proof. repeat (constructor; [apply rgb8_b; reflexivity|]). constructor. Qed.

Ltac split_draws H :=
  repeat (apply draw_all_cons in H; destruct H as (? & ? & H));
  apply draw_all_nil in H; subst.

Ltac run_draws :=
  repeat (cbv - [closest_color text_color];
          match goal with
          | E : closest_color ?t ?l = _ |- context [closest_color ?t ?l] =>
              rewrite E
          | E : text_color ?t = _ |- context [text_color ?t] => rewrite E
          end).

(** C8.  With at least eight RGB triples in each pool the assignment runs to
    its end.  From the normal pool it draws, in this order, the closest
    colors to black (background), yellow (cursor), red, green, blue,
    magenta, cyan and white (color1, color2, color4 to color7); from the
    bright pool the closest to black, red, green, yellow, blue, magenta,
    cyan and white (color8 to color15).  The foreground is the text color of
    the background; selection_foreground and color0 are the background,
    selection_background is the foreground and color3 is the cursor.  Eight
    entries leave each pool. *)
Theorem assign_order (cs bs : list tuple) :
  Forall rgb8 cs -> Forall rgb8 bs ->
  (8 <= List.length cs)%nat -> (8 <= List.length bs)%nat ->
  exists bg cursor fg c1 c2 c4 c5 c6 c7 c8 c9 c10 c11 c12 c13 c14 c15 cs' bs',
    draw_all [BLACK; YELLOW; RED; GREEN; BLUE; MAGENTA; CYAN; WHITE] cs =
    Ok ([bg; cursor; c1; c2; c4; c5; c6; c7], cs') /\
    draw_all [BLACK; RED; GREEN; YELLOW; BLUE; MAGENTA; CYAN; WHITE] bs =
    Ok ([c8; c9; c10; c11; c12; c13; c14; c15], bs') /\
    text_color bg = Ok fg /\
    assign (mkState cs bs ColorConfModel) =
    Ok (tt, mkState cs' bs'
              (assigned fg bg cursor [c1; c2; c4; c5; c6; c7]
                        [c8; c9; c10; c11; c12; c13; c14; c15])) /\
    List.length cs = (8 + List.length cs')%nat /\
    List.length bs = (8 + List.length bs')%nat.
Proof.
  intros Hcs Hbs Lcs Lbs.
  assert (Hn : Forall rgb8 [BLACK; YELLOW; RED; GREEN; BLUE; MAGENTA; CYAN; WHITE])
    by (repeat (constructor; [apply rgb8_b; reflexivity|]); constructor).
  destruct (draw_all_ok _ Hn cs Hcs Lcs) as (dn & cs' & En & Ln & Hdn & _ & Ecs).
  destruct (draw_all_ok _ hues_rgb8 bs Hbs Lbs) as (db & bs' & Eb & Lb & _ & _ & Ebs).
  destruct dn as [|bg [|cursor [|c1 [|c2 [|c4 [|c5 [|c6 [|c7 [|? ?]]]]]]]]];
    try discriminate Ln.
  destruct db as [|c8 [|c9 [|c10 [|c11 [|c12 [|c13 [|c14 [|c15 [|? ?]]]]]]]]];
    try discriminate Lb.
  destruct (text_color_total bg (Forall_inv Hdn)) as (fg & Efg & _).
  exists bg, cursor, fg, c1, c2, c4, c5, c6, c7,
    c8, c9, c10, c11, c12, c13, c14, c15, cs', bs'.
  repeat split; trivial.
  pose proof En as Dn. pose proof Eb as Db.
  split_draws Dn. split_draws Db.
  unfold BLACK, RED, GREEN, YELLOW, BLUE, MAGENTA, CYAN, WHITE in *.
  run_draws. reflexivity.
Qed.

(** ** The codec *)

Lemma all_ascii_complete (c : ascii) : In c all_ascii.
Proof.
  unfold all_ascii. rewrite <- (ascii_nat_embedding c).
  apply in_map, in_seq. pose proof (nat_ascii_bounded c). lia.
Qed.

Lemma reads_byte_all (c d : ascii) : reads_byte c d = true.
Proof.
  assert (A : forallb (fun x => forallb (reads_byte x) all_ascii) all_ascii = true)
    by (vm_compute; reflexivity).
  rewrite forallb_forall in A. specialize (A c (all_ascii_complete c)).
  rewrite forallb_forall in A. exact (A d (all_ascii_complete d)).
Qed.

(** Two hexadecimal digits are read as the byte they spell. *)
Lemma int16_hex_pair (c d : ascii) (u v : Z) :
  hex_digit c = Some u -> hex_digit d = Some v ->
  int16 (String c (String d EmptyString)) = Ok (16 * u + v).
Proof.
  intros Hc Hd. pose proof (reads_byte_all c d) as H.
  unfold reads_byte in H. rewrite Hc, Hd in H.
  destruct (int16 _) as [n|e]; [|discriminate].
  apply Z.eqb_eq in H. now subst.
Qed.

Lemma hex_digit_range (c : ascii) (u : Z) : hex_digit c = Some u -> 0 <= u <= 15.
Proof.
  unfold hex_digit.
  repeat match goal with
         | |- context [if ?t then _ else _] => destruct t eqn:?
         end; intros H; inversion H; subst; lia.
Qed.

Lemma is_hex_digit (c : ascii) : is_hex c = true -> exists u, hex_digit c = Some u.
Proof. unfold is_hex. destruct (hex_digit c); [eauto | discriminate]. Qed.

Lemma format_x_short (v : Z) :
  channel v -> (1 <= String.length (format_x v) <= 2)%nat.
Proof.
  intros H. apply all_channels_complete in H.
  assert (A : forallb short_hex all_channels = true) by (vm_compute; reflexivity).
  rewrite forallb_forall in A. specialize (A v H). unfold short_hex in A.
  apply andb_prop in A. destruct A as [A B].
  apply Nat.leb_le in A, B. lia.
Qed.

Lemma length_append (s t : string) :
  String.length (s ++ t) = (String.length s + String.length t)%nat.
Proof. induction s as [|c s IH]; cbn; [reflexivity | now rewrite IH]. Qed.

Lemma length_upper (s : string) : String.length (upper s) = String.length s.
Proof.
  unfold upper. induction s as [|c s IH]; cbn; [reflexivity | now rewrite IH].
Qed.

(** A string that is not 12 or 13 characters long is printed and refused. *)
Lemma tw_to_rgb_other_length (s : string) :
  String.length s <> 12%nat -> String.length s <> 13%nat ->
  tw_to_rgb s = ([s], Raise (ValueError (Text twelve_digits))).
Proof.
  intros H12 H13. unfold tw_to_rgb.
  apply Nat.eqb_neq in H12, H13. now rewrite H12, H13.
Qed.

(** The encoding of an RGB triple: [#] and three to six characters. *)
Lemma rgb_to_hex_length (rgb : tuple) :
  rgb8 rgb ->
  exists h, rgb_to_hex rgb = Ok h /\ (4 <= String.length h <= 7)%nat.
Proof.
  intros (r & g & b & -> & Hr & Hg & Hb).
  eexists. split; [reflexivity|].
  rewrite length_upper, !length_append. cbn [String.length].
  pose proof (format_x_short r Hr). pose proof (format_x_short g Hg).
  pose proof (format_x_short b Hb). lia.
Qed.

(** A wide-hex string decodes to the high bytes of its three channels. *)
Lemma tw_to_rgb_wide_hex (s : string) :
  wide_hex s = true -> exists rgb, tw_to_rgb s = ([], Ok rgb) /\ rgb8 rgb.
Proof.
  destruct s as [|c0 ds]; [discriminate|]. cbn [wide_hex].
  intros H. apply andb_prop in H. destruct H as [H Hd].
  apply andb_prop in H. destruct H as [_ Hl]. apply Nat.eqb_eq in Hl.
  do 12 (destruct ds as [|? ds]; [discriminate Hl|]).
  destruct ds; [|discriminate Hl]. clear Hl.
  cbn [list_ascii_of_string forallb] in Hd.
  repeat (apply andb_prop in Hd; destruct Hd as [?%is_hex_digit Hd]).
  repeat match goal with H : exists _, _ |- _ => destruct H end.
  unfold tw_to_rgb. cbn [String.length Nat.eqb negb substring].
  repeat match goal with
         | H1 : hex_digit ?c = Some _, H2 : hex_digit ?d = Some _
           |- context [int16 (String ?c (String ?d EmptyString))] =>
             rewrite (int16_hex_pair c d _ _ H1 H2)
         end.
  cbn [bind]. eexists. split; [reflexivity|].
  repeat match goal with
         | H : hex_digit _ = Some _ |- _ => apply hex_digit_range in H
         end.
  apply rgb8_intro; unfold channel; lia.
Qed.

(** C3, as amended.  For a wide-hex string the decoder returns an RGB
    triple and the encoder turns it into [#] followed by three to six
    characters: a string of 4 to 7 characters, never 13.  Decoding that
    string again raises the error for a wrong length, so the second decode
    does not give back the triple. *)
Theorem redecode_fails (s : string) :
  wide_hex s = true ->
  exists rgb h,
    tw_to_rgb s = ([], Ok rgb) /\ rgb8 rgb /\
    rgb_to_hex rgb = Ok h /\ (4 <= String.length h <= 7)%nat /\
    tw_to_rgb h = ([h], Raise (ValueError (Text twelve_digits))) /\
    redecode s = Raise (ValueError (Text twelve_digits)).
Proof.
  intros H. destruct (tw_to_rgb_wide_hex s H) as (rgb & E & Hrgb).
  destruct (rgb_to_hex_length rgb Hrgb) as (h & Eh & Hl).
  assert (T : tw_to_rgb h = ([h], Raise (ValueError (Text twelve_digits))))
    by (apply tw_to_rgb_other_length; lia).
  exists rgb, h. repeat split; trivial; try lia.
  unfold redecode. rewrite E. cbn [snd bind]. rewrite Eh. cbn [bind].
  now rewrite T.
Qed.

Lemma redecode_fails_witness :
  redecode "#FFFF00000A0A" = Raise (ValueError (Text twelve_digits)).
Proof.
  destruct (redecode_fails "#FFFF00000A0A" eq_refl) as (rgb & h & H).
  exact (proj2 (proj2 (proj2 (proj2 (proj2 H))))).
Defined.

(** C3 as stated fails: [#000000000000] decodes to [(0, 0, 0)], which is
    encoded as [#000]; decoding [#000] raises an error. *)
Lemma redecode_not_identity :
  wide_hex "#000000000000" = true /\
  snd (tw_to_rgb "#000000000000") = Ok [0; 0; 0] /\
  rgb_to_hex [0; 0; 0] = Ok "#000" /\
  redecode "#000000000000" <> snd (tw_to_rgb "#000000000000").
Proof. repeat split; try reflexivity. vm_compute. discriminate. Qed.

(** C5, as amended.  A string of 12 characters is refused with the message
    [not_formatted] and nothing printed; a string of any length other than
    12 and 13 is printed and refused with the different message
    [twelve_digits]; a string of 13 characters is decoded by reading its
    characters 2-3, 6-7 and 10-11 (counted from 1) in base 16, whatever the
    other seven characters are.  The 12 characters [xxxxxxxxxxxx] get the
    first message; the 13 characters [#xxxxxxxxxxxx] pass the length test and
    are refused by [int] with an invalid literal [xx]. *)
Theorem tw_to_rgb_cases (s : string) :
  (String.length s = 12%nat ->
   tw_to_rgb s = ([], Raise (ValueError (Text not_formatted)))) /\
  (String.length s <> 12%nat -> String.length s <> 13%nat ->
   tw_to_rgb s = ([s], Raise (ValueError (Text twelve_digits)))) /\
  (String.length s = 13%nat ->
   tw_to_rgb s =
   ([], (r <- int16 (substring 1 2 s) ;;
         g <- int16 (substring 5 2 s) ;;
         b <- int16 (substring 9 2 s) ;;
         Ok [r; g; b])%result)) /\
  (forall c0 r1 r2 x1 x2 g1 g2 x3 x4 b1 b2 x5 x6 u1 u2 v1 v2 w1 w2,
     hex_digit r1 = Some u1 -> hex_digit r2 = Some u2 ->
     hex_digit g1 = Some v1 -> hex_digit g2 = Some v2 ->
     hex_digit b1 = Some w1 -> hex_digit b2 = Some w2 ->
     tw_to_rgb (string_of_list_ascii
                  [c0; r1; r2; x1; x2; g1; g2; x3; x4; b1; b2; x5; x6]) =
     ([], Ok [16 * u1 + u2; 16 * v1 + v2; 16 * w1 + w2])) /\
  not_formatted <> twelve_digits /\
  tw_to_rgb "xxxxxxxxxxxx" = ([], Raise (ValueError (Text not_formatted))) /\
  tw_to_rgb "#xxxxxxxxxxxx" = ([], Raise (ValueError (InvalidLiteral 16 "xx"))).
Proof.
  repeat split; try reflexivity.
  - intros H. unfold tw_to_rgb. now rewrite H.
  - apply tw_to_rgb_other_length.
  - intros H. unfold tw_to_rgb. now rewrite H.
  - intros * R1 R2 G1 G2 B1 B2.
    unfold tw_to_rgb. cbn [string_of_list_ascii String.length Nat.eqb negb substring].
    rewrite (int16_hex_pair _ _ _ _ R1 R2), (int16_hex_pair _ _ _ _ G1 G2),
      (int16_hex_pair _ _ _ _ B1 B2).
    reflexivity.
  - discriminate.
Qed.

Lemma tw_to_rgb_cases_witness :
  tw_to_rgb "#FFFF00000A0A" = ([], Ok [255; 0; 10]) /\
  tw_to_rgb "xxxxxxxxxxxx" = ([], Raise (ValueError (Text not_formatted))) /\
  tw_to_rgb "#000" = (["#000"], Raise (ValueError (Text twelve_digits))).
Proof.
  split; [|split].
  - exact (proj1 (proj2 (proj2 (tw_to_rgb_cases "#FFFF00000A0A"))) eq_refl).
  - exact (proj1 (tw_to_rgb_cases "xxxxxxxxxxxx") eq_refl).
  - apply (proj1 (proj2 (tw_to_rgb_cases "#000"))); discriminate.
Defined.

(** C5 as stated fails on its example: [#xxxxxxxxxxxx] has 13 characters,
    not 12, so it does not get the message kept for 12 characters; it fails
    where the digits are read. *)
Lemma thirteen_x_not_length_error :
  String.length "#xxxxxxxxxxxx" = 13%nat /\
  tw_to_rgb "#xxxxxxxxxxxx" = ([], Raise (ValueError (InvalidLiteral 16 "xx"))) /\
  tw_to_rgb "#xxxxxxxxxxxx" <> ([], Raise (ValueError (Text not_formatted))).
Proof. repeat split; try reflexivity. vm_compute. discriminate. Qed.

(** ** Pools *)

(** Repeating a tuple of three deltas does not change what [brighten] adds
    to a triple: [map] stops after the third pair. *)
Lemma brighten_repeated_deltas (rgb values : tuple) :
  List.length rgb = 3%nat -> List.length values = 3%nat ->
  brighten rgb (tuple_repeat values 2) = brighten rgb values.
Proof.
  destruct rgb as [|r [|g [|b [|? ?]]]]; try discriminate.
  destruct values as [|dr [|dg [|db [|? ?]]]]; try discriminate.
  reflexivity.
Qed.

(** Without vibrancy the pools are the ones the specification describes. *)
Lemma pools_plain (deltas : tuple) (original : list tuple) :
  pools false deltas original = spec_pools false deltas original /\
  pools false deltas original =
  (original, List.map (fun c => brighten c deltas) original).
Proof. split; reflexivity. Qed.

(** With vibrancy the normal pool is the one the specification describes. *)
Lemma pools_vibrant_normal (deltas : tuple) (original : list tuple) :
  fst (pools true deltas original) = fst (spec_pools true deltas original) /\
  fst (pools true deltas original) =
  List.map (fun c => brighten c deltas) original.
Proof. split; reflexivity. Qed.

(** C2, the vibrant bright pool.  With [--vibrant], deltas [(20, 20, 20)]
    and the single color [(100, 100, 100)], the normal pool is
    [(120, 120, 120)] and the script's bright pool is [(140, 140, 140)]: the
    normal color brightened by the deltas once, since [brightness * 2]
    repeats the tuple.  Brightening by twice the deltas gives
    [(160, 160, 160)]. *)
Theorem vibrant_bright_pool :
  tuple_repeat [20; 20; 20] 2 = [20; 20; 20; 20; 20; 20] /\
  pools true [20; 20; 20] [[100; 100; 100]] =
  ([[120; 120; 120]], [[140; 140; 140]]) /\
  spec_pools true [20; 20; 20] [[100; 100; 100]] =
  ([[120; 120; 120]], [[160; 160; 160]]) /\
  pools true [20; 20; 20] [[100; 100; 100]] <>
  spec_pools true [20; 20; 20] [[100; 100; 100]].
Proof. repeat split; try reflexivity. vm_compute. discriminate. Qed.

Lemma brighten_length3 (rgb values : tuple) :
  List.length rgb = 3%nat -> List.length values = 3%nat ->
  List.length (brighten rgb values) = 3%nat.
Proof.
  destruct rgb as [|r [|g [|b [|? ?]]]]; try discriminate.
  destruct values as [|dr [|dg [|db [|? ?]]]]; try discriminate.
  intros _ _. unfold brighten. rewrite length_map.
  repeat match goal with
         | |- context [if ?t then _ else _] => destruct t
         end; reflexivity.
Qed.

(** With vibrancy and three deltas, the script's bright pool is the normal
    pool brightened by the deltas once. *)
Lemma pools_vibrant_bright (deltas : tuple) (original : list tuple) :
  List.length deltas = 3%nat ->
  Forall (fun c => List.length c = 3%nat) original ->
  snd (pools true deltas original) =
  List.map (fun c => brighten c deltas) (fst (pools true deltas original)).
Proof.
  intros Hd Hall. cbn [pools fst snd].
  apply map_ext_in. intros c Hc. apply brighten_repeated_deltas; [|exact Hd].
  apply in_map_iff in Hc. destruct Hc as (c0 & <- & Hc0).
  rewrite Forall_forall in Hall. apply brighten_length3; auto.
Qed.

(** ** The script *)

Lemma main_read_error (a : Args.t) (w : env) (e : exn) :
  readlines w (Args.path a) = Raise e ->
  main a w = mkOutcome (handler a e) [] None.
Proof. intros H. unfold main. now rewrite H. Qed.

Lemma main_decode_error (a : Args.t) (w : env) (lines out : list string) (e : exn) :
  readlines w (Args.path a) = Ok lines ->
  decode_palette lines = (out, Raise e) ->
  main a w = mkOutcome (Uncaught e) out None.
Proof. intros H D. unfold main. now rewrite H, D. Qed.

Lemma main_dispatch (a : Args.t) (w : env) (lines out : list string)
    (decoded : list tuple) :
  readlines w (Args.path a) = Ok lines ->
  decode_palette lines = (out, Ok decoded) ->
  main a w =
  match dispatch a (initial a decoded) with
  | Raise e => mkOutcome (Uncaught e) out None
  | Ok (_, s) =>
      match write_theme w a (entries s) with
      | (file, Raise e) => mkOutcome (handler a e) out file
      | (file, Ok _) => mkOutcome (Exit 0) out file
      end
  end.
Proof.
  intros H D. unfold main, initial. rewrite H, D.
  destruct (pools _ _ _) as [cs bs]. reflexivity.
Qed.

Lemma dispatch_invalid (a : Args.t) (s : state) :
  Args.ncolors a <> 8 -> Args.ncolors a <> 4 ->
  dispatch a s = Raise (ValueError (Text "ncolors must be either 8 or 4.")).
Proof.
  intros H8 H4. unfold dispatch. cbn [existsb].
  apply Z.eqb_neq in H8, H4. now rewrite H8, H4.
Qed.

(** C7.  For a palette size other than 8 and 4 the dispatch raises the
    [ValueError] [ncolors must be either 8 or 4.] in every state; once the
    palette has been read and decoded the script ends with that exception
    uncaught, with [--silent] and without; so it does for size 5.  Sizes 4
    and 8 both run the assignment, and the script does the same for one as
    for the other. *)
Theorem palette_size_dispatch (a : Args.t) (w : env) (lines out : list string)
    (decoded : list tuple) :
  readlines w (Args.path a) = Ok lines ->
  decode_palette lines = (out, Ok decoded) ->
  let invalid := ValueError (Text "ncolors must be either 8 or 4.") in
  (Args.ncolors a <> 8 -> Args.ncolors a <> 4 ->
   (forall s q, dispatch (set_silent a q) s = Raise invalid) /\
   status (main (set_silent a true) w) = Uncaught invalid /\
   status (main (set_silent a false) w) = Uncaught invalid) /\
  status (main (set_silent (set_ncolors a 5) true) w) = Uncaught invalid /\
  status (main (set_silent (set_ncolors a 5) false) w) = Uncaught invalid /\
  dispatch (set_ncolors a 8) = assign /\
  dispatch (set_ncolors a 4) = assign /\
  main (set_ncolors a 4) w = main (set_ncolors a 8) w.
Proof.
  intros H D invalid.
  assert (G : forall n q, n <> 8 -> n <> 4 ->
                status (main (set_silent (set_ncolors a n) q) w) =
                Uncaught invalid).
  { intros n q H8 H4.
    rewrite (main_dispatch _ w lines out decoded) by assumption.
    rewrite dispatch_invalid by assumption. reflexivity. }
  split; [intros H8 H4; split; [|split] | repeat split].
  - intros s q. now apply dispatch_invalid.
  - specialize (G (Args.ncolors a) true H8 H4). destruct a; exact G.
  - specialize (G (Args.ncolors a) false H8 H4). destruct a; exact G.
  - apply G; discriminate.
  - apply G; discriminate.
Qed.

Lemma palette_size_dispatch_witness :
  status (main (example_args 5 true) example_env) =
  Uncaught (ValueError (Text "ncolors must be either 8 or 4.")).
Proof.
  refine (proj1 (proj2 (palette_size_dispatch (example_args 8 true) example_env
                          example_palette [] example_colors _ _))).
  - reflexivity.
  - vm_compute. reflexivity.
Defined.

Lemma assign_order_witness :
  exists cs' bs' conf,
    assign (mkState example_colors example_colors ColorConfModel) =
    Ok (tt, mkState cs' bs' conf).
Proof.
  assert (H : Forall rgb8 example_colors)
    by (repeat (constructor; [apply rgb8_b; reflexivity|]); constructor).
  destruct (assign_order example_colors example_colors H H) as
    (bg & cursor & fg & c1 & c2 & c4 & c5 & c6 & c7 & c8 & c9 & c10 & c11 &
     c12 & c13 & c14 & c15 & cs' & bs' & _ & _ & _ & E & _);
    [cbn; lia | cbn; lia |].
  eauto.
Defined.

(** * Further properties *)

(** ** One call of [closest_color] *)

Lemma remove_perm (x : tuple) (l l' : list tuple) :
  remove x l = Ok l' -> Permutation l (x :: l').
Proof.
  revert l'. induction l as [|y l IH]; intros l'; cbn; [discriminate|].
  destruct (tuple_eqb y x) eqn:E.
  - apply tuple_eqb_eq in E. subst. intros H. injection H as <-. reflexivity.
  - destruct (remove x l) as [r|e]; cbn; [|discriminate].
    intros H. injection H as <-.
    rewrite (IH r eq_refl). apply perm_swap.
Qed.

Lemma closest_color_perm (rgb : tuple) (l : list tuple) (c : tuple)
    (l' : list tuple) :
  closest_color rgb l = Ok (c, l') -> Permutation l (c :: l').
Proof.
  unfold closest_color.
  destruct (unpack3 rgb) as [t|e]; cbn [bind]; [|discriminate].
  destruct (color_diffs t l) as [diffs|e]; cbn [bind]; [|discriminate].
  destruct (min diffs) as [m|e]; cbn [bind]; [|discriminate].
  destruct (remove (snd m) l) as [r|e] eqn:E; cbn [bind]; [|discriminate].
  intros H. injection H as <- <-. now apply remove_perm.
Qed.

(** X1.  Whenever [closest_color] returns, the color returned is an entry of
    the pool and the pool it leaves is the old one less that single entry:
    the old pool is a permutation of the color followed by the new pool, and
    is one entry longer. *)
Theorem closest_color_takes_one (rgb : tuple) (l : list tuple) (c : tuple)
    (l' : list tuple) :
  closest_color rgb l = Ok (c, l') ->
  In c l /\ Permutation l (c :: l') /\ List.length l = S (List.length l').
Proof.
  intros H. apply closest_color_perm in H. repeat split.
  - eapply Permutation_in; [symmetry; exact H | now left].
  - exact H.
  - now rewrite (Permutation_length H).
Qed.

Lemma closest_color_takes_one_witness :
  In [10; 10; 10] [[10; 10; 10]; [200; 200; 200]].
Proof.
  exact (proj1 (closest_color_takes_one [0; 0; 0]
                  [[10; 10; 10]; [200; 200; 200]] [10; 10; 10]
                  [[200; 200; 200]] eq_refl)).
Defined.

Lemma distance2_zero (a b : tuple) :
  rgb8 a -> rgb8 b -> distance2 a b <= 0 -> a = b.
Proof.
  intros (r & g & b0 & -> & _) (cr & cg & cb & -> & _).
  unfold distance2, radicand. rewrite !Z.pow_2_r. intros H.
  assert (r = cr /\ g = cg /\ b0 = cb) as (-> & -> & ->) by nia.
  reflexivity.
Qed.

Lemma distance2_self (a : tuple) : rgb8 a -> distance2 a a = 0.
Proof.
  intros (r & g & b & -> & _). unfold distance2, radicand.
  rewrite !Z.sub_diag. reflexivity.
Qed.

(** X2.  A color that is in the pool is its own closest match: for an RGB
    triple that occurs in a pool of RGB triples, [closest_color] returns
    that very triple. *)
Theorem closest_color_exact (rgb : tuple) (l : list tuple) :
  rgb8 rgb -> Forall rgb8 l -> In rgb l ->
  exists l', closest_color rgb l = Ok (rgb, l').
Proof.
  intros Hrgb Hall Hin.
  destruct (closest_color_spec rgb l Hrgb Hall) as
    (c & before & after & E & El & _ & Hmin & _).
  { intros ->. destruct Hin. }
  pose proof (Hmin rgb Hin) as Hd. rewrite (distance2_self rgb Hrgb) in Hd.
  assert (Hc : rgb8 c).
  { rewrite Forall_forall in Hall. apply Hall. rewrite El.
    apply in_or_app. right. now left. }
  pose proof (distance2_zero rgb c Hrgb Hc Hd) as Ec. subst c.
  exists (before ++ after)%list. exact E.
Qed.

Lemma closest_color_exact_witness :
  exists l', closest_color [255; 0; 0] [[0; 0; 0]; [255; 0; 0]] =
             Ok ([255; 0; 0], l').
Proof.
  apply closest_color_exact.
  - apply rgb8_b; reflexivity.
  - repeat (constructor; [apply rgb8_b; reflexivity|]). constructor.
  - cbn. auto.
Defined.

(** ** The assignment as a whole *)

Ltac invert_draws H :=
  repeat (cbv - [closest_color text_color] in H;
          match type of H with
          | context [closest_color ?t ?l] =>
              let E := fresh "E" in
              destruct (closest_color t l) as [[? ?]|?] eqn:E;
              [|discriminate H]
          | context [text_color ?t] =>
              let E := fresh "T" in
              destruct (text_color t) as [?|?] eqn:E; [|discriminate H]
          end).

Lemma perm_draw (l : list tuple) (c : tuple) (l' drawn rest : list tuple) :
  Permutation l (c :: l') -> Permutation l' (drawn ++ rest)%list ->
  Permutation l ((c :: drawn) ++ rest)%list.
Proof. intros H1 H2. rewrite H1. cbn. now apply perm_skip. Qed.

(** X3.  Whenever the assignment runs to its end, no pool entry has been
    used twice and none invented: the eight colors given to background,
    cursor, color1, color2 and color4 to color7, followed by what is left of
    the normal pool, are a permutation of the normal pool, and the colors of
    color8 to color15 followed by what is left of the bright pool are a
    permutation of the bright pool.  The 21 entries are then as [assigned]
    lists them. *)
Theorem assign_uses_each_once (cs bs : list tuple) (s' : state) :
  assign (mkState cs bs ColorConfModel) = Ok (tt, s') ->
  exists bg cursor fg c1 c2 c4 c5 c6 c7 c8 c9 c10 c11 c12 c13 c14 c15,
    text_color bg = Ok fg /\
    entries s' = assigned fg bg cursor [c1; c2; c4; c5; c6; c7]
                          [c8; c9; c10; c11; c12; c13; c14; c15] /\
    Permutation cs ([bg; cursor; c1; c2; c4; c5; c6; c7] ++ colors s')%list /\
    Permutation bs ([c8; c9; c10; c11; c12; c13; c14; c15]
                    ++ bright_colors s')%list.
Proof.
  intros H. unfold BLACK, RED, GREEN, YELLOW, BLUE, MAGENTA, CYAN, WHITE.
  invert_draws H. injection H as <-.
  repeat match goal with
         | E : closest_color _ _ = Ok _ |- _ => apply closest_color_perm in E
         end.
  do 17 eexists. cbn [entries colors bright_colors].
  split; [eassumption|]. split; [reflexivity|].
  split; repeat (eapply perm_draw; [eassumption|]); reflexivity.
Qed.

Lemma assign_uses_each_once_witness :
  exists bg cursor fg c1 c2 c4 c5 c6 c7 c8 c9 c10 c11 c12 c13 c14 c15,
    text_color bg = Ok fg /\
    entries example_final =
    assigned fg bg cursor [c1; c2; c4; c5; c6; c7]
             [c8; c9; c10; c11; c12; c13; c14; c15] /\
    Permutation example_colors
      ([bg; cursor; c1; c2; c4; c5; c6; c7] ++ colors example_final)%list /\
    Permutation example_colors
      ([c8; c9; c10; c11; c12; c13; c14; c15]
       ++ bright_colors example_final)%list.
Proof.
  apply (assign_uses_each_once example_colors example_colors example_final).
  vm_compute. reflexivity.
Defined.

Lemma closest_color_or_empty (t : tuple) (l : list tuple) :
  rgb8 t -> Forall rgb8 l ->
  (l = [] /\ closest_color t l = Raise (ValueError MinEmpty)) \/
  (exists c l',
     closest_color t l = Ok (c, l') /\ rgb8 c /\ Forall rgb8 l' /\
     List.length l = S (List.length l')).
Proof.
  intros Ht Hl. destruct l as [|x l].
  - left. split; [reflexivity|]. destruct Ht as (r & g & b & -> & _). reflexivity.
  - right. destruct (closest_color_draw t (x :: l) Ht Hl) as (c & l' & H);
      [cbn; lia|]. eauto.
Qed.

Ltac exhaust_step :=
  cbv - [closest_color text_color];
  match goal with
  | Hl : Forall rgb8 ?l |- context [closest_color ?t ?l] =>
      let Ht := fresh "Ht" in
      assert (Ht : rgb8 t) by (apply rgb8_b; reflexivity);
      let E := fresh "E" in
      destruct (closest_color_or_empty t l Ht Hl)
        as [[-> E] | (? & ? & E & ? & ? & ?)];
      rewrite E; clear Ht E; [reflexivity|]
  | Hb : rgb8 ?t |- context [text_color ?t] =>
      let E := fresh "E" in
      destruct (text_color_total t Hb) as (? & E & _); rewrite E; clear E
  end.

(** What the assignment does when a pool runs out. *)
Lemma assign_exhausted (cs bs : list tuple) :
  Forall rgb8 cs -> Forall rgb8 bs ->
  (List.length cs < 8)%nat \/ (List.length bs < 8)%nat ->
  assign (mkState cs bs ColorConfModel) = Raise (ValueError MinEmpty).
Proof.
  intros Hcs Hbs Hlen.
  unfold BLACK, RED, GREEN, YELLOW, BLUE, MAGENTA, CYAN, WHITE.
  do 17 exhaust_step. cbn [List.length] in *. lia.
Qed.

(** X4.  A pool of fewer than eight colors is fatal: with RGB triples in
    both pools and fewer than eight of them in the normal or in the bright
    pool, the assignment raises the [ValueError] of [min] on an empty
    sequence, and no entry is handed out. *)
Theorem assign_needs_eight (cs bs : list tuple) :
  Forall rgb8 cs -> Forall rgb8 bs ->
  (List.length cs < 8)%nat \/ (List.length bs < 8)%nat ->
  assign (mkState cs bs ColorConfModel) = Raise (ValueError MinEmpty).
Proof. apply assign_exhausted. Qed.

Lemma assign_needs_eight_witness :
  assign (mkState [[0; 0; 0]; [255; 255; 255]] [[20; 20; 20]; [235; 235; 235]]
                  ColorConfModel) =
  Raise (ValueError MinEmpty).
Proof.
  apply assign_needs_eight.
  - repeat (constructor; [apply rgb8_b; reflexivity|]). constructor.
  - repeat (constructor; [apply rgb8_b; reflexivity|]). constructor.
  - left. cbn. lia.
Defined.

(** ** Deltas and pools *)

Lemma brighten_rgb8 (rgb values : tuple) :
  rgb8 rgb -> rgb8 values -> rgb8 (brighten rgb values).
Proof.
  intros (r & g & b & -> & Hr & Hg & Hb) (dr & dg & db & -> & Hdr & Hdg & Hdb).
  unfold channel in *.
  brighten_cases; apply rgb8_intro; unfold channel; lia.
Qed.

Lemma rgb8_length (t : tuple) : rgb8 t -> List.length t = 3%nat.
Proof. intros (r & g & b & -> & _). reflexivity. Qed.

Lemma brightness_rgb8 (a : Args.t) : valid_args a -> rgb8 (brightness a).
Proof.
  intros (Hn & Hr & Hg & Hb). unfold brightness. cbn [repeat map2].
  unfold channel in *. apply rgb8_intro; unfold channel;
    rewrite Z.gtb_ltb; split_tests; lia.
Qed.

Lemma pools_rgb8 (vibrant : bool) (deltas : tuple) (decoded : list tuple) :
  rgb8 deltas -> Forall rgb8 decoded ->
  Forall rgb8 (fst (pools vibrant deltas decoded)) /\
  Forall rgb8 (snd (pools vibrant deltas decoded)) /\
  List.length (fst (pools vibrant deltas decoded)) = List.length decoded /\
  List.length (snd (pools vibrant deltas decoded)) = List.length decoded.
Proof.
  intros Hd Hall.
  assert (B : forall l, Forall rgb8 l ->
                Forall rgb8 (List.map (fun i => brighten i deltas) l)).
  { intros l Hl. apply Forall_map. eapply Forall_impl; [|exact Hl].
    intros c Hc. now apply brighten_rgb8. }
  assert (R : forall l, Forall rgb8 l ->
                List.map (fun i => brighten i (tuple_repeat deltas 2)) l =
                List.map (fun i => brighten i deltas) l).
  { intros l Hl. apply map_ext_in. intros c Hc.
    rewrite Forall_forall in Hl.
    apply brighten_repeated_deltas; apply rgb8_length; auto. }
  destruct vibrant; cbn [pools fst snd].
  - rewrite R by auto. rewrite !length_map. auto.
  - rewrite !length_map. auto.
Qed.

(** X5.  Brightening keeps the pools well formed: for deltas in 0..255 and
    a palette of RGB triples, with or without [--vibrant], both pools hold
    RGB triples only and as many of them as the palette has colors. *)
Theorem pools_keep_shape (vibrant : bool) (deltas : tuple)
    (decoded : list tuple) :
  rgb8 deltas -> Forall rgb8 decoded ->
  Forall rgb8 (fst (pools vibrant deltas decoded)) /\
  Forall rgb8 (snd (pools vibrant deltas decoded)) /\
  List.length (fst (pools vibrant deltas decoded)) = List.length decoded /\
  List.length (snd (pools vibrant deltas decoded)) = List.length decoded.
Proof. apply pools_rgb8. Qed.

Lemma pools_keep_shape_witness :
  List.length (snd (pools true [20; 20; 20] example_colors)) = 8%nat.
Proof.
  refine (proj2 (proj2 (proj2 (pools_keep_shape true [20; 20; 20]
                                 example_colors _ _)))).
  - apply rgb8_b; reflexivity.
  - repeat (constructor; [apply rgb8_b; reflexivity|]). constructor.
Defined.

(** X6.  With [--vibrant], three deltas and a palette of triples, the bright
    pool is the normal pool brightened by the deltas once more: every bright
    color is [brighten] of the normal color at the same place, with the
    same deltas. *)
Theorem vibrant_bright_is_one_step (deltas : tuple) (original : list tuple) :
  List.length deltas = 3%nat ->
  Forall (fun c => List.length c = 3%nat) original ->
  snd (pools true deltas original) =
  List.map (fun c => brighten c deltas) (fst (pools true deltas original)).
Proof. apply pools_vibrant_bright. Qed.

Lemma vibrant_bright_is_one_step_witness :
  snd (pools true [20; 20; 20] [[100; 100; 100]; [250; 5; 5]]) =
  List.map (fun c => brighten c [20; 20; 20])
           (fst (pools true [20; 20; 20] [[100; 100; 100]; [250; 5; 5]])).
Proof.
  apply vibrant_bright_is_one_step; [reflexivity|].
  repeat (constructor; [reflexivity|]). constructor.
Defined.

(** X7.  The deltas are never zero by accident: for arguments the parser
    lets through, [brightness] is a triple with channels in 0..255; a
    channel whose flag ([-r], [-g], [-b]) is 0 takes [--brightness], so with
    a positive [--brightness] every delta is positive, whatever the flags. *)
Theorem brightness_deltas (a : Args.t) :
  valid_args a ->
  rgb8 (brightness a) /\
  (Args.r a = 0 -> Args.g a = 0 -> Args.b a = 0 ->
   brightness a = [Args.brightness a; Args.brightness a; Args.brightness a]) /\
  (0 < Args.brightness a -> Forall (fun d => 0 < d) (brightness a)).
Proof.
  intros H. split; [now apply brightness_rgb8|].
  destruct H as (Hn & Hr & Hg & Hb). unfold channel in *.
  unfold brightness. cbn [repeat map2]. rewrite !Z.gtb_ltb. split.
  - intros -> -> ->. reflexivity.
  - intros Hpos. split_tests; repeat constructor; lia.
Qed.

Lemma brightness_deltas_witness :
  brightness (example_args 8 false) = [20; 20; 20].
Proof.
  refine (proj1 (proj2 (brightness_deltas (example_args 8 false) _))
            eq_refl eq_refl eq_refl).
  unfold valid_args, channel. cbn. lia.
Defined.

(** ** The codec, further *)

Lemma pair_in_range_all (c d : ascii) : pair_in_range c d = true.
Proof.
  assert (A : forallb (fun x => forallb (pair_in_range x) all_ascii) all_ascii = true)
    by (vm_compute; reflexivity).
  rewrite forallb_forall in A. specialize (A c (all_ascii_complete c)).
  rewrite forallb_forall in A. exact (A d (all_ascii_complete d)).
Qed.

Lemma int16_pair_range (c d : ascii) (n : Z) :
  int16 (String c (String d EmptyString)) = Ok n -> -15 <= n <= 255.
Proof.
  intros H. pose proof (pair_in_range_all c d) as R.
  unfold pair_in_range in R. rewrite H in R. lia.
Qed.

(** X8.  The decoder validates the length only: whenever [tw_to_rgb]
    returns, its argument has 13 characters, nothing was printed, and the
    result is a triple whose channels lie between -15 and 255.  Negative
    channels do occur, since [int] accepts a sign: [#-f0000000000] decodes to
    [(-15, 0, 0)]. *)
Theorem tw_to_rgb_channels (s : string) (out : list string) (rgb : tuple) :
  tw_to_rgb s = (out, Ok rgb) ->
  out = [] /\ String.length s = 13%nat /\
  (exists r g b, rgb = [r; g; b] /\
     -15 <= r <= 255 /\ -15 <= g <= 255 /\ -15 <= b <= 255) /\
  tw_to_rgb "#-f0000000000" = ([], Ok [-15; 0; 0]).
Proof.
  unfold tw_to_rgb at 1.
  destruct (Nat.eqb (String.length s) 13) eqn:L; cbn [negb].
  2:{ destruct (Nat.eqb (String.length s) 12); discriminate. }
  apply Nat.eqb_eq in L. intros H. injection H as <- H.
  repeat split; trivial.
  do 13 (destruct s as [|? s]; [discriminate L|]).
  destruct s; [|discriminate L]. clear L.
  cbn [substring] in H.
  repeat match type of H with
         | context [int16 ?p] =>
             let E := fresh "E" in
             destruct (int16 p) eqn:E; cbn [bind] in H; [|discriminate H];
             apply int16_pair_range in E
         end.
  injection H as <-. eauto 10.
Qed.

Lemma tw_to_rgb_channels_witness :
  String.length "#c8c81e1e1e1e" = 13%nat.
Proof.
  exact (proj1 (proj2 (tw_to_rgb_channels "#c8c81e1e1e1e" [] [200; 30; 30]
                         eq_refl))).
Defined.

Lemma upper_append (s t : string) : upper (s ++ t) = upper s ++ upper t.
Proof.
  unfold upper. induction s as [|c s IH]; cbn; [reflexivity|].
  now rewrite IH.
Qed.

Lemma list_ascii_append (s t : string) :
  list_ascii_of_string (s ++ t) =
  (list_ascii_of_string s ++ list_ascii_of_string t)%list.
Proof. induction s as [|c s IH]; cbn; [reflexivity | now rewrite IH]. Qed.

Lemma hex_shape_channel (v : Z) :
  channel v ->
  forallb is_upper_hex (list_ascii_of_string (upper (format_x v))) = true /\
  (String.length (format_x v) = 2%nat <-> 16 <= v).
Proof.
  intros H. pose proof (format_x_short v H) as S.
  apply all_channels_complete in H.
  assert (A : forallb hex_shape all_channels = true) by (vm_compute; reflexivity).
  rewrite forallb_forall in A. specialize (A v H). unfold hex_shape in A.
  apply andb_prop in A. destruct A as [A B]. split; [exact A|].
  apply eqb_prop in B.
  destruct (Z.leb_spec 16 v); [apply Nat.eqb_eq in B | apply Nat.eqb_neq in B];
    split; intros; try lia; try assumption.
Qed.

(** X9.  The encoder on an RGB triple: [rgb_to_hex] returns [#] followed by
    capital hexadecimal digits only, three to six of them, and six (the
    usual form) exactly when every channel is 16 or more; a smaller channel
    is written with a single digit. *)
Theorem rgb_to_hex_shape (r g b : Z) :
  rgb8 [r; g; b] ->
  exists digits,
    rgb_to_hex [r; g; b] = Ok (String "#" digits) /\
    forallb is_upper_hex (list_ascii_of_string digits) = true /\
    (3 <= String.length digits <= 6)%nat /\
    (String.length digits = 6%nat <-> 16 <= r /\ 16 <= g /\ 16 <= b).
Proof.
  intros (r0 & g0 & b0 & E & Hr & Hg & Hb). injection E as <- <- <-.
  exists (upper (format_x r) ++ upper (format_x g) ++ upper (format_x b)).
  destruct (hex_shape_channel r Hr) as [Cr Lr].
  destruct (hex_shape_channel g Hg) as [Cg Lg].
  destruct (hex_shape_channel b Hb) as [Cb Lb].
  pose proof (format_x_short r Hr). pose proof (format_x_short g Hg).
  pose proof (format_x_short b Hb).
  split; [|split; [|split]].
  - unfold rgb_to_hex. cbn [index nth_error bind].
    change ("#" ++ format_x r ++ format_x g ++ format_x b)
      with (String "#" (format_x r ++ format_x g ++ format_x b)).
    change (upper (String "#" ?x)) with (String "#" (upper x)).
    now rewrite !upper_append.
  - rewrite !list_ascii_append, !forallb_app, Cr, Cg, Cb. reflexivity.
  - rewrite !length_append, !length_upper. lia.
  - rewrite !length_append, !length_upper. lia.
Qed.

Lemma rgb_to_hex_shape_witness :
  exists digits, rgb_to_hex [255; 0; 171] = Ok (String "#" digits).
Proof.
  assert (H : rgb8 [255; 0; 171]) by (apply rgb8_b; reflexivity).
  destruct (rgb_to_hex_shape 255 0 171 H) as (digits & E & _).
  exists digits. exact E.
Defined.

(** ** Reading the palette *)

Lemma drop_while_blank (p : ascii -> bool) (pre l : list ascii) :
  forallb p pre = true -> drop_while p (pre ++ l)%list = drop_while p l.
Proof.
  induction pre as [|c pre IH]; cbn; [reflexivity|].
  intros H. apply andb_prop in H. destruct H as [-> H]. now apply IH.
Qed.

Lemma drop_while_stop (p : ascii -> bool) (c : ascii) (l : list ascii) :
  p c = false -> drop_while p (c :: l) = c :: l.
Proof. intros H. cbn. now rewrite H. Qed.

Lemma forallb_rev {A} (p : A -> bool) (l : list A) :
  forallb p l = true -> forallb p (rev l) = true.
Proof.
  rewrite !forallb_forall. intros H x Hx. apply H. now apply in_rev.
Qed.

(** Stripping a text whose first and last characters are not whitespace,
    wrapped in whitespace, gives the text back. *)
Lemma strip_wrapped (pre post : string) (a z : ascii) (mid : list ascii) :
  blank pre = true -> blank post = true ->
  is_str_space a = false -> is_str_space z = false ->
  strip (pre ++ string_of_list_ascii (a :: mid ++ [z]) ++ post) =
  string_of_list_ascii (a :: mid ++ [z]).
Proof.
  unfold blank, strip. intros Hpre Hpost Ha Hz.
  rewrite !list_ascii_append, list_ascii_of_string_of_list_ascii.
  rewrite (drop_while_blank _ _ _ Hpre).
  change ((a :: mid ++ [z]) ++ list_ascii_of_string post)%list
    with (a :: ((mid ++ [z]) ++ list_ascii_of_string post))%list.
  rewrite (drop_while_stop _ _ _ Ha).
  change (a :: (mid ++ [z]) ++ list_ascii_of_string post)%list
    with ((a :: mid ++ [z]) ++ list_ascii_of_string post)%list.
  rewrite rev_app_distr, (drop_while_blank _ _ _ (forallb_rev _ _ Hpost)).
  change (a :: mid ++ [z])%list with ((a :: mid) ++ [z])%list.
  rewrite rev_app_distr. cbn [rev app].
  rewrite (drop_while_stop _ _ _ Hz).
  change (z :: rev mid ++ [a])%list with ([z] ++ rev (a :: mid))%list.
  now rewrite rev_app_distr, rev_involutive.
Qed.

Lemma hex_not_space (c : ascii) : is_hex c = true -> is_str_space c = false.
Proof.
  unfold is_hex, hex_digit, is_str_space, is_space.
  repeat match goal with
         | |- context [?x <=? ?y] => destruct (Z.leb_spec x y)
         | |- context [?x =? ?y] => destruct (Z.eqb_spec x y)
         end; cbn; try discriminate; try reflexivity; lia.
Qed.

Lemma strip_wide_hex (pre s post : string) :
  wide_hex s = true -> blank pre = true -> blank post = true ->
  strip (pre ++ s ++ post) = s.
Proof.
  intros H Hpre Hpost.
  destruct s as [|c0 ds]; [discriminate|]. cbn [wide_hex] in H.
  apply andb_prop in H. destruct H as [H Hd].
  apply andb_prop in H. destruct H as [Hc Hl].
  apply Ascii.eqb_eq in Hc. subst c0. apply Nat.eqb_eq in Hl.
  do 12 (destruct ds as [|? ds]; [discriminate Hl|]).
  destruct ds; [|discriminate Hl]. clear Hl.
  cbn [list_ascii_of_string forallb] in Hd.
  repeat (apply andb_prop in Hd; destruct Hd as [? Hd]).
  match goal with
  | |- strip (pre ++ String ?a (String ?d1 (String ?d2 (String ?d3
         (String ?d4 (String ?d5 (String ?d6 (String ?d7 (String ?d8
         (String ?d9 (String ?d10 (String ?d11 (String ?z EmptyString))))))))))))
         ++ post) = _ =>
      apply (strip_wrapped pre post a z
               [d1; d2; d3; d4; d5; d6; d7; d8; d9; d10; d11] Hpre Hpost)
  end; [reflexivity | now apply hex_not_space].
Qed.

Lemma tw_to_rgb_ok_silent (s : string) (out : list string) (c : tuple) :
  tw_to_rgb s = (out, Ok c) -> out = [].
Proof.
  unfold tw_to_rgb.
  destruct (Nat.eqb (String.length s) 13); cbn [negb];
    [|destruct (Nat.eqb (String.length s) 12); discriminate].
  intros H. now injection H as <- _.
Qed.

(** X10.  Whitespace around a color does not matter: a wide-hex string
    wrapped in characters [strip] removes (such as the line feed that
    [readlines] leaves at the end of a line) is stripped back to the string
    itself, and a palette line made so decodes, without output, to an RGB
    triple. *)
Theorem decode_palette_strips (pre s post : string) :
  wide_hex s = true -> blank pre = true -> blank post = true ->
  strip (pre ++ s ++ post) = s /\
  exists rgb,
    rgb8 rgb /\ tw_to_rgb s = ([], Ok rgb) /\
    decode_palette [pre ++ s ++ post] = ([], Ok [rgb]).
Proof.
  intros H Hpre Hpost.
  pose proof (strip_wide_hex pre s post H Hpre Hpost) as S.
  split; [exact S|].
  destruct (tw_to_rgb_wide_hex s H) as (rgb & E & Hrgb).
  exists rgb. repeat split; trivial.
  cbn [decode_palette]. rewrite S, E. reflexivity.
Qed.

Lemma decode_palette_strips_witness :
  strip ("  " ++ "#c8c81e1e1e1e" ++ nl) = "#c8c81e1e1e1e".
Proof.
  exact (proj1 (decode_palette_strips "  " "#c8c81e1e1e1e" nl
                  eq_refl eq_refl eq_refl)).
Defined.

Lemma decode_palette_ok (lines : list string) :
  forall out decoded,
    decode_palette lines = (out, Ok decoded) ->
    out = [] /\
    Forall2 (fun l c => tw_to_rgb (strip l) = ([], Ok c)) lines decoded.
Proof.
  induction lines as [|l lines IH]; intros out decoded; cbn [decode_palette].
  - intros H. injection H as <- <-. auto.
  - destruct (tw_to_rgb (strip l)) as [o [c|e]] eqn:E; [|discriminate].
    pose proof (tw_to_rgb_ok_silent _ _ _ E) as ->.
    destruct (decode_palette lines) as [o' [cs|e]]; [|discriminate].
    destruct (IH o' cs eq_refl) as [-> F].
    intros H. injection H as <- <-. split; [reflexivity|].
    constructor; assumption.
Qed.

Lemma decode_palette_first_error (good : list string) (bad : string)
    (rest : list string) (o : list string) (e : exn) :
  Forall (fun l => exists c, tw_to_rgb (strip l) = ([], Ok c)) good ->
  tw_to_rgb (strip bad) = (o, Raise e) ->
  decode_palette (good ++ bad :: rest) = (o, Raise e).
Proof.
  intros Hgood Hbad. induction Hgood as [|l good (c & E) _ IH];
    cbn [app decode_palette].
  - now rewrite Hbad.
  - rewrite E, IH. reflexivity.
Qed.

(** X11.  The palette is decoded line by line, all or nothing.  When the
    decoding succeeds nothing has been printed, and there is one color per
    line, each the decoding of its stripped line.  When a line cannot be
    decoded and the lines before it can, the result is that line's
    exception and output, whatever follows it. *)
Theorem decode_palette_line_by_line (good : list string) (bad : string)
    (rest : list string) (o : list string) (e : exn) :
  (forall lines out decoded,
     decode_palette lines = (out, Ok decoded) ->
     out = [] /\ List.length decoded = List.length lines /\
     Forall2 (fun l c => tw_to_rgb (strip l) = ([], Ok c)) lines decoded) /\
  (Forall (fun l => exists c, tw_to_rgb (strip l) = ([], Ok c)) good ->
   tw_to_rgb (strip bad) = (o, Raise e) ->
   decode_palette (good ++ bad :: rest) = (o, Raise e)).
Proof.
  split.
  - intros lines out decoded H.
    destruct (decode_palette_ok lines out decoded H) as [-> F].
    repeat split; trivial. symmetry. exact (Forall2_length F).
  - apply decode_palette_first_error.
Qed.

Lemma decode_palette_line_by_line_witness :
  decode_palette (["#c8c81e1e1e1e" ++ nl] ++ nl :: ["#000000000000" ++ nl]) =
  ([""], Raise (ValueError (Text twelve_digits))).
Proof.
  apply (proj2 (decode_palette_line_by_line ["#c8c81e1e1e1e" ++ nl] nl
                  ["#000000000000" ++ nl] [""]
                  (ValueError (Text twelve_digits)))).
  - constructor; [|constructor]. exists [200; 30; 30]. reflexivity.
  - reflexivity.
Defined.

(** ** The script, further *)

Lemma hues_normal_rgb8 :
  Forall rgb8 [BLACK; YELLOW; RED; GREEN; BLUE; MAGENTA; CYAN; WHITE].
Proof. repeat (constructor; [apply rgb8_b; reflexivity|]). constructor. Qed.

(** With eight RGB triples or more in each pool the assignment fills the 21
    fields, in their order, with RGB triples. *)
Lemma assign_runs (cs bs : list tuple) :
  Forall rgb8 cs -> Forall rgb8 bs ->
  (8 <= List.length cs)%nat -> (8 <= List.length bs)%nat ->
  exists conf cs' bs',
    assign (mkState cs bs ColorConfModel) = Ok (tt, mkState cs' bs' conf) /\
    List.map fst conf = fields /\ Forall rgb8 (List.map snd conf).
Proof.
  intros Hcs Hbs Lcs Lbs.
  destruct (draw_all_ok _ hues_normal_rgb8 cs Hcs Lcs)
    as (dn & cs' & En & Ln & Hdn & _ & _).
  destruct (draw_all_ok _ hues_rgb8 bs Hbs Lbs)
    as (db & bs' & Eb & Lb & Hdb & _ & _).
  destruct dn as [|bg [|cursor [|c1 [|c2 [|c4 [|c5 [|c6 [|c7 [|? ?]]]]]]]]];
    try discriminate Ln.
  destruct db as [|c8 [|c9 [|c10 [|c11 [|c12 [|c13 [|c14 [|c15 [|? ?]]]]]]]]];
    try discriminate Lb.
  destruct (text_color_total bg (Forall_inv Hdn)) as (fg & Efg & Hfg).
  assert (Wfg : rgb8 fg)
    by (destruct Hfg as [-> | ->]; apply rgb8_b; reflexivity).
  exists (assigned fg bg cursor [c1; c2; c4; c5; c6; c7]
                   [c8; c9; c10; c11; c12; c13; c14; c15]), cs', bs'.
  split; [|split; [reflexivity|]].
  - split_draws En. split_draws Eb.
    unfold BLACK, RED, GREEN, YELLOW, BLUE, MAGENTA, CYAN, WHITE in *.
    run_draws. reflexivity.
  - cbn [assigned List.map snd].
    repeat match goal with
           | H : Forall rgb8 (_ :: _) |- _ => inversion_clear H
           end.
    repeat constructor; assumption.
Qed.

Lemma dispatch_assign (a : Args.t) :
  Args.ncolors a = 8 \/ Args.ncolors a = 4 -> dispatch a = assign.
Proof. unfold dispatch. intros [-> | ->]; reflexivity. Qed.

Lemma initial_pools (a : Args.t) (decoded : list tuple) :
  initial a decoded =
  mkState (fst (pools (Args.vibrant a) (brightness a) decoded))
          (snd (pools (Args.vibrant a) (brightness a) decoded))
          ColorConfModel.
Proof. unfold initial. now destruct (pools _ _ _). Qed.

(** X12.  A palette of fewer than eight colors stops the script, with or
    without [--silent]: when the palette decodes to fewer than eight RGB
    triples and the size is 8 or 4, the script ends with the uncaught
    [ValueError] of [min] on an empty sequence and the theme is never
    opened. *)
Theorem short_palette_fails (a : Args.t) (w : env) (lines out : list string)
    (decoded : list tuple) :
  valid_args a -> Args.ncolors a = 8 \/ Args.ncolors a = 4 ->
  readlines w (Args.path a) = Ok lines ->
  decode_palette lines = (out, Ok decoded) ->
  Forall rgb8 decoded -> (List.length decoded < 8)%nat ->
  main a w = mkOutcome (Uncaught (ValueError MinEmpty)) [] None.
Proof.
  intros Hv Hn Hr Hd Hall Hlen.
  rewrite (main_dispatch a w lines out decoded Hr Hd).
  destruct (decode_palette_ok lines out decoded Hd) as [-> _].
  rewrite (dispatch_assign a Hn), initial_pools.
  destruct (pools_rgb8 (Args.vibrant a) (brightness a) decoded
              (brightness_rgb8 a Hv) Hall) as (Hc & Hb & Lc & Lb).
  rewrite assign_exhausted; [reflexivity | assumption | assumption | lia].
Qed.

Lemma short_palette_fails_witness :
  main (example_args 8 true)
       (mkEnv (fun _ => Ok ["#000000000000"; "#ffffffffffff"])
              (fun _ => Ok tt) (fun _ _ _ => Ok tt) (fun _ _ => Ok tt)) =
  mkOutcome (Uncaught (ValueError MinEmpty)) [] None.
Proof.
  apply (short_palette_fails _ _ ["#000000000000"; "#ffffffffffff"] []
           [[0; 0; 0]; [255; 255; 255]]).
  - unfold valid_args, channel. cbn. lia.
  - left. reflexivity.
  - reflexivity.
  - reflexivity.
  - repeat (constructor; [apply rgb8_b; reflexivity|]). constructor.
  - cbn. lia.
Defined.

(** X13.  The theme is opened last: whenever the script has opened the theme
    file, the palette had been read and decoded without output, the slots
    had been assigned, and opening the theme had succeeded.  A run that
    fails earlier leaves the theme file as it was. *)
Theorem theme_opened_last (a : Args.t) (w : env) (done : list string) :
  theme_file (main a w) = Some done ->
  exists lines decoded s,
    readlines w (Args.path a) = Ok lines /\
    decode_palette lines = ([], Ok decoded) /\
    dispatch a (initial a decoded) = Ok (tt, s) /\
    open_w w (Args.theme a) = Ok tt.
Proof.
  destruct (readlines w (Args.path a)) as [lines|e] eqn:R.
  2:{ rewrite (main_read_error a w e R). discriminate. }
  destruct (decode_palette lines) as [out [decoded|e]] eqn:D.
  2:{ rewrite (main_decode_error a w lines out e R D). discriminate. }
  rewrite (main_dispatch a w lines out decoded R D).
  destruct (decode_palette_ok lines out decoded D) as [-> _].
  destruct (dispatch a (initial a decoded)) as [[[] s]|e] eqn:A; [|discriminate].
  unfold write_theme.
  destruct (open_w w (Args.theme a)) as [[]|e] eqn:O.
  - intros _. exists lines, decoded, s. auto.
  - cbn. discriminate.
Qed.

Lemma theme_opened_last_witness :
  exists lines decoded s,
    readlines example_env (Args.path (example_args 8 false)) = Ok lines /\
    decode_palette lines = ([], Ok decoded) /\
    dispatch (example_args 8 false) (initial (example_args 8 false) decoded) =
    Ok (tt, s) /\
    open_w example_env (Args.theme (example_args 8 false)) = Ok tt.
Proof.
  eapply (theme_opened_last (example_args 8 false) example_env).
  vm_compute. reflexivity.
Defined.

Lemma getitem_nodup (conf : dict) (k : string) (v : tuple) :
  NoDup (List.map fst conf) -> In (k, v) conf -> getitem conf k = Ok v.
Proof.
  induction conf as [|[k' v'] conf IH]; cbn; [tauto|].
  intros N [E | Hin].
  - injection E as -> ->. now rewrite String.eqb_refl.
  - inversion_clear N as [|? ? Hk N'].
    destruct (String.eqb_spec k' k) as [->|_]; [|now apply IH].
    exfalso. apply Hk. change k with (fst (k, v)). now apply in_map.
Qed.

Lemma fields_nodup : NoDup fields.
Proof.
  unfold fields.
  repeat (constructor; [cbn; intuition discriminate|]). constructor.
Qed.

Lemma rgb_to_hex_triple (v : tuple) :
  List.length v = 3%nat -> exists h, rgb_to_hex v = Ok h.
Proof.
  destruct v as [|r [|g [|b [|? ?]]]]; try discriminate.
  intros _. eexists. reflexivity.
Qed.

Lemma theme_chunks_ok (a : Args.t) (conf : dict) :
  NoDup (List.map fst conf) ->
  Forall (fun v => List.length v = 3%nat) (List.map snd conf) ->
  theme_chunks a conf =
  List.map Ok (generated_by :: theme_of a :: List.map slot_text conf).
Proof.
  intros N Hall. unfold theme_chunks. cbn [List.map].
  do 2 f_equal. rewrite !map_map. apply map_ext_in.
  intros [k v] Hin. cbn [fst snd].
  rewrite (getitem_nodup conf k v N Hin). cbn [bind].
  assert (Hv : List.length v = 3%nat).
  { rewrite Forall_forall in Hall. apply Hall.
    change v with (snd (k, v)). now apply in_map. }
  destruct (rgb_to_hex_triple v Hv) as (h & E).
  unfold slot_text, hex_text. cbn [fst snd]. rewrite E. reflexivity.
Qed.

Lemma write_all_ok (w : env) (p : string) (chunks : list string) :
  (forall done chunk, write w p done chunk = Ok tt) ->
  forall done,
    write_all w p done (List.map Ok chunks) = ((done ++ chunks)%list, Ok tt).
Proof.
  intros Hw. induction chunks as [|c chunks IH]; intros done; cbn.
  - now rewrite app_nil_r.
  - rewrite Hw, IH, <- app_assoc. reflexivity.
Qed.

Lemma decode_palette_wide (lines : list string) :
  Forall (fun l => wide_hex (strip l) = true) lines ->
  exists decoded,
    decode_palette lines = ([], Ok decoded) /\ Forall rgb8 decoded /\
    List.length decoded = List.length lines.
Proof.
  induction 1 as [|l lines Hl _ (decoded & E & Hall & Hlen)].
  - exists []. auto.
  - destruct (tw_to_rgb_wide_hex _ Hl) as (c & Ec & Hc).
    exists (c :: decoded). cbn [decode_palette]. rewrite Ec, E. cbn.
    auto.
Qed.

(** X14.  A full run.  With arguments the parser lets through, size 8 or 4,
    a palette of eight or more lines that are wide-hex colors once stripped,
    and a theme file that can be written, the script prints nothing, exits
    with status 0 and writes 23 chunks: the two comment lines, then one line
    per field of the model, in the order of [fields], each the field name, a
    space, the encoding of an RGB triple and a line feed. *)
Theorem main_writes_theme (a : Args.t) (w : env) (lines : list string) :
  valid_args a -> Args.ncolors a = 8 \/ Args.ncolors a = 4 ->
  readlines w (Args.path a) = Ok lines ->
  Forall (fun l => wide_hex (strip l) = true) lines ->
  (8 <= List.length lines)%nat ->
  writable w (Args.theme a) ->
  exists conf,
    List.map fst conf = fields /\ Forall rgb8 (List.map snd conf) /\
    main a w =
    mkOutcome (Exit 0) []
              (Some (generated_by :: theme_of a :: List.map slot_text conf)) /\
    List.length (generated_by :: theme_of a :: List.map slot_text conf) = 23%nat.
Proof.
  intros Hv Hn Hr Hwide Hlen (Ho & Hw & Hc).
  destruct (decode_palette_wide lines Hwide) as (decoded & Hd & Hall & Ld).
  destruct (pools_rgb8 (Args.vibrant a) (brightness a) decoded
              (brightness_rgb8 a Hv) Hall) as (Pc & Pb & Lc & Lb).
  destruct (assign_runs _ _ Pc Pb ltac:(lia) ltac:(lia))
    as (conf & cs' & bs' & E & Ef & Er).
  exists conf. split; [exact Ef|]. split; [exact Er|]. split.
  - rewrite (main_dispatch a w lines [] decoded Hr Hd).
    rewrite (dispatch_assign a Hn), initial_pools, E. cbn [entries].
    unfold write_theme. rewrite Ho.
    rewrite theme_chunks_ok.
    2:{ rewrite Ef. apply fields_nodup. }
    2:{ eapply Forall_impl; [|exact Er]. apply rgb8_length. }
    rewrite (write_all_ok w _ _ Hw), Hc. reflexivity.
  - cbn [List.length]. rewrite length_map, <- (length_map fst), Ef. reflexivity.
Qed.

Lemma main_writes_theme_witness :
  exists conf,
    main (example_args 8 false) example_env =
    mkOutcome (Exit 0) []
      (Some (generated_by :: theme_of (example_args 8 false)
             :: List.map slot_text conf)).
Proof.
  destruct (main_writes_theme (example_args 8 false) example_env
              example_palette) as (conf & _ & _ & E & _).
  - unfold valid_args, channel. cbn. lia.
  - left. reflexivity.
  - reflexivity.
  - repeat (constructor; [vm_compute; reflexivity|]). constructor.
  - cbn. lia.
  - repeat split.
  - exists conf. exact E.
Defined.

(** ** [text_color] in integers *)

Lemma count_up_spec (test : PrimInt63.int -> bool) (fuel : nat) :
  forall i,
    count_up test fuel i = true ->
    to_Z i + Z.of_nat fuel < wB ->
    forall n, to_Z i <= n < to_Z i + Z.of_nat fuel -> test (of_Z n) = true.
Proof.
  induction fuel as [|fuel IH]; intros i H Hb n Hn; [lia|].
  cbn [count_up] in H. apply andb_prop in H. destruct H as [H0 H1].
  destruct (Z.eq_dec n (to_Z i)) as [->|Hne].
  - now rewrite of_to_Z.
  - apply (IH (i + 1)%uint63 H1).
    + rewrite add_spec, to_Z_1, Z.mod_small; pose proof (to_Z_bounded i); lia.
    + rewrite add_spec, to_Z_1, Z.mod_small; pose proof (to_Z_bounded i); lia.
Qed.

Lemma count_up_256 (test : PrimInt63.int -> bool) (n : Z) :
  count_up test 256 0%uint63 = true -> channel n -> test (of_Z n) = true.
Proof.
  intros H Hn. apply (count_up_spec test 256 0%uint63 H).
  - rewrite wB_value. cbn. lia.
  - unfold channel in Hn. cbn. lia.
Qed.

(** All 16777216 colors with 8-bit channels. *)
Lemma threshold_table_ok : count_up green_rows 256 0%uint63 = true.
Proof. vm_compute. reflexivity. Qed.

Lemma float_of_channel_63 (c : Z) :
  channel c -> float_of_int c = Ok (PrimFloat.of_uint63 (of_Z c)).
Proof.
  intros H. destruct (float_of_channel c H) as [f E]. rewrite E. f_equal.
  unfold float_of_int in E.
  destruct (PrimFloat.is_infinity _); [discriminate|]. injection E as <-.
  rewrite <- (SF2Prim_Prim2SF (PrimFloat.of_uint63 (of_Z c))).
  rewrite of_uint63_spec, of_Z_spec, Z.mod_small; [reflexivity|].
  rewrite wB_value. unfold channel in H. lia.
Qed.

Lemma to_Z_channel (c : Z) : channel c -> to_Z (of_Z c) = c.
Proof.
  intros H. rewrite of_Z_spec, Z.mod_small; [reflexivity|].
  rewrite wB_value. unfold channel in H. lia.
Qed.

Lemma int_ltb_Z (x y : PrimInt63.int) : Uint63.ltb x y = (to_Z x <? to_Z y).
Proof.
  apply eq_true_iff_eq. rewrite Uint63.ltb_spec. symmetry. apply Z.ltb_lt.
Qed.

Lemma int_eqb_Z (x y : PrimInt63.int) : Uint63.eqb x y = (to_Z x =? to_Z y).
Proof.
  apply eq_true_iff_eq. rewrite Uint63.eqb_spec, Z.eqb_eq. split.
  - now intros ->.
  - apply to_Z_inj.
Qed.

(** For 8-bit channels [text_color] is decided by integers. *)
Lemma text_color_by_integers (r g b : Z) :
  rgb8 [r; g; b] -> text_color [r; g; b] = Ok (text_color_exact r g b).
Proof.
  intros H. pose proof H as (r0 & g0 & b0 & E & Hr & Hg & Hb).
  injection E as <- <- <-.
  destruct (luminance_rgb8 r g b H) as (fr & fg & fb & Er & Eg & Eb & L).
  rewrite (float_of_channel_63 r Hr) in Er. injection Er as <-.
  rewrite (float_of_channel_63 g Hg) in Eg. injection Eg as <-.
  rewrite (float_of_channel_63 b Hb) in Eb. injection Eb as <-.
  unfold text_color. rewrite L. cbn [bind]. f_equal.
  pose proof (count_up_256 green_rows r threshold_table_ok Hr) as T.
  unfold green_rows in T.
  apply (fun T => count_up_256 (blue_row (of_Z r)) g T Hg) in T.
  unfold blue_row in T.
  apply (fun T => count_up_256 _ b T Hb) in T.
  unfold threshold_agrees in T. cbv zeta in T.
  rewrite int_ltb_Z, !int_eqb_Z in T.
  rewrite !to_Z_channel in T by assumption.
  assert (N : to_Z (299 * of_Z r + 587 * of_Z g + 114 * of_Z b)%uint63 =
              299 * r + 587 * g + 114 * b).
  { rewrite !add_spec, !mul_spec, !to_Z_channel by assumption.
    change (to_Z 299) with 299. change (to_Z 587) with 587.
    change (to_Z 114) with 114.
    unfold channel in *. rewrite wB_value.
    rewrite (Z.mod_small (299 * r)), (Z.mod_small (587 * g)),
      (Z.mod_small (114 * b)) by lia.
    rewrite (Z.mod_small (299 * r + 587 * g)) by lia.
    apply Z.mod_small. lia. }
  rewrite N in T.
  change (to_Z 127500) with 127500 in T. change (to_Z 218) with 218 in T.
  change (to_Z 58) with 58 in T. change (to_Z 248) with 248 in T.
  unfold text_color_exact.
  destruct ((r =? 218) && (g =? 58) && (b =? 248)) eqn:S.
  - apply andb_prop in S. destruct S as [S Sb].
    apply andb_prop in S. destruct S as [Sr Sg].
    apply Z.eqb_eq in Sr, Sg, Sb. subst.
    vm_compute. reflexivity.
  - rewrite orb_false_r in T |- *. apply eqb_prop in T. now rewrite T.
Qed.



(** X16.  On the grays the threshold is 128: for a channel [v] between 0 and
    255, the text on [(v, v, v)] is black when [v] is 128 or more and white
    when it is 127 or less. *)
Theorem text_color_gray (v : Z) :
  channel v ->
  text_color [v; v; v] = Ok (if 128 <=? v then [0; 0; 0] else [255; 255; 255]).
Proof.
  intros H. rewrite text_color_by_integers by now apply rgb8_intro.
  unfold text_color_exact, channel in *. f_equal.
  destruct (Z.leb_spec 128 v), (Z.ltb_spec 127500 (299 * v + 587 * v + 114 * v));
    try lia; cbn [orb]; [reflexivity|].
  destruct (Z.eqb_spec v 218), (Z.eqb_spec v 58); try lia; reflexivity.
Qed.

Lemma text_color_gray_witness : text_color [127; 127; 127] = Ok [255; 255; 255].
Proof.
  apply (text_color_gray 127). unfold channel. lia.
Defined.

(** ** Further on [brighten] and on [--silent] *)

(** X17.  [brighten] gives a different color whenever it can: on an RGB
    triple and deltas in 0..255 the result equals the color given exactly
    when the deltas are all zero, or when adding them overflows some
    channel and subtracting them takes some channel below zero. *)
Theorem brighten_unchanged (r g b dr dg db : Z) :
  rgb8 [r; g; b] -> rgb8 [dr; dg; db] ->
  (brighten [r; g; b] [dr; dg; db] = [r; g; b] <->
   (dr = 0 /\ dg = 0 /\ db = 0) \/
   ((255 < r + dr \/ 255 < g + dg \/ 255 < b + db) /\
    (r - dr < 0 \/ g - dg < 0 \/ b - db < 0))).
Proof.
  intros (r0 & g0 & b0 & E & Hr & Hg & Hb) (r1 & g1 & b1 & E' & Hdr & Hdg & Hdb).
  injection E as <- <- <-. injection E' as <- <- <-.
  unfold channel in *.
  brighten_cases; cbn [List.map];
    (split;
     [ intros E; try (injection E; intros); lia
     | intros; first [reflexivity | repeat f_equal; lia] ]).
Qed.

Lemma brighten_unchanged_witness :
  brighten [250; 5; 5] [20; 20; 20] = [250; 5; 5].
Proof.
  apply (proj2 (brighten_unchanged 250 5 5 20 20 20
                  ltac:(apply rgb8_b; reflexivity)
                  ltac:(apply rgb8_b; reflexivity))).
  right. lia.
Defined.

Lemma color_diffs_triples (t : Z * Z * Z) (l : list tuple) :
  forall diffs, color_diffs t l = Ok diffs ->
  Forall (fun c => List.length c = 3%nat) l.
Proof.
  unfold color_diffs. induction l as [|c l IH]; intros diffs; cbn [mapM].
  - constructor.
  - destruct (unpack3 c) as [u|e] eqn:U; cbn [bind]; [|discriminate].
    destruct (color_diff t u) as [d|e]; cbn [bind]; [|discriminate].
    destruct (mapM _ l) as [ds|e]; cbn [bind]; [|discriminate].
    intros _. constructor; [|now apply (IH ds)].
    destruct c as [|x [|y [|z [|? ?]]]]; try discriminate U. reflexivity.
Qed.

Lemma closest_color_triple (rgb : tuple) (l : list tuple) (c : tuple)
    (l' : list tuple) :
  closest_color rgb l = Ok (c, l') -> List.length c = 3%nat.
Proof.
  intros H. pose proof (closest_color_perm _ _ _ _ H) as P.
  unfold closest_color in H.
  destruct (unpack3 rgb) as [t|e]; cbn [bind] in H; [|discriminate].
  destruct (color_diffs t l) as [diffs|e] eqn:D; cbn [bind] in H; [|discriminate].
  pose proof (color_diffs_triples t l diffs D) as F.
  rewrite Forall_forall in F. apply F.
  eapply Permutation_in; [symmetry; exact P | now left].
Qed.

Lemma text_color_triple (bg fg : tuple) :
  text_color bg = Ok fg -> List.length fg = 3%nat.
Proof.
  unfold text_color. destruct (luminance bg) as [lum|e]; cbn [bind]; [|discriminate].
  intros H. injection H as <-. now destruct (PrimFloat.ltb _ _).
Qed.

(** After the assignment the model holds its 21 fields, each with a
    triple. *)
Lemma assign_triples (cs bs : list tuple) (s' : state) :
  assign (mkState cs bs ColorConfModel) = Ok (tt, s') ->
  List.map fst (entries s') = fields /\
  Forall (fun v => List.length v = 3%nat) (List.map snd (entries s')).
Proof.
  intros H. unfold BLACK, RED, GREEN, YELLOW, BLUE, MAGENTA, CYAN, WHITE.
  invert_draws H. injection H as <-. cbn [entries].
  repeat match goal with
         | E : closest_color _ _ = Ok _ |- _ => apply closest_color_triple in E
         | E : text_color _ = Ok _ |- _ => apply text_color_triple in E
         end.
  split; [reflexivity|]. cbn [List.map snd]. repeat constructor; assumption.
Qed.

Lemma dispatch_ok (a : Args.t) (s s' : state) :
  dispatch a s = Ok (tt, s') -> assign s = Ok (tt, s').
Proof.
  unfold dispatch. destruct (existsb _ _); [auto | discriminate].
Qed.

Lemma write_theme_ok (w : env) (a : Args.t) (decoded : list tuple) (s : state) :
  dispatch a (initial a decoded) = Ok (tt, s) ->
  writable w (Args.theme a) ->
  write_theme w a (entries s) =
  (Some (generated_by :: theme_of a :: List.map slot_text (entries s)), Ok tt) /\
  List.length (generated_by :: theme_of a :: List.map slot_text (entries s)) =
  23%nat.
Proof.
  intros D (Ho & Hw & Hc). apply dispatch_ok in D.
  rewrite initial_pools in D. apply assign_triples in D. destruct D as [Ef Et].
  split.
  - unfold write_theme. rewrite Ho, theme_chunks_ok; trivial.
    + rewrite (write_all_ok w _ _ Hw), Hc. reflexivity.
    + rewrite Ef. apply fields_nodup.
  - cbn [List.length]. rewrite length_map, <- (length_map fst), Ef. reflexivity.
Qed.

(** X18.  Once the slots are assigned the write cannot fail on a color: when
    the palette has been read and decoded, the dispatch has succeeded and
    the theme file can be written, every entry of the model is a triple,
    and the script exits with status 0 after writing 23 chunks: the two
    comment lines and one line for each of the 21 fields, in their order. *)
Theorem main_completes (a : Args.t) (w : env) (lines out : list string)
    (decoded : list tuple) (s : state) :
  readlines w (Args.path a) = Ok lines ->
  decode_palette lines = (out, Ok decoded) ->
  dispatch a (initial a decoded) = Ok (tt, s) ->
  writable w (Args.theme a) ->
  List.map fst (entries s) = fields /\
  Forall (fun v => List.length v = 3%nat) (List.map snd (entries s)) /\
  main a w =
  mkOutcome (Exit 0) []
    (Some (generated_by :: theme_of a :: List.map slot_text (entries s))) /\
  List.length (generated_by :: theme_of a :: List.map slot_text (entries s)) =
  23%nat.
Proof.
  intros R D A W.
  destruct (write_theme_ok w a decoded s A W) as [E L].
  pose proof (dispatch_ok _ _ _ A) as A'. rewrite initial_pools in A'.
  destruct (assign_triples _ _ _ A') as [Ef Et].
  repeat split; trivial.
  rewrite (main_dispatch a w lines out decoded R D), A, E.
  now destruct (decode_palette_ok lines out decoded D) as [-> _].
Qed.

Lemma main_completes_witness :
  main (example_args 8 false) example_env =
  mkOutcome (Exit 0) []
    (Some (generated_by :: theme_of (example_args 8 false)
           :: List.map slot_text (entries example_run))).
Proof.
  refine (proj1 (proj2 (proj2
    (main_completes (example_args 8 false) example_env example_palette []
       example_colors example_run _ _ _ _)))).
  - reflexivity.
  - vm_compute. reflexivity.
  - vm_compute. reflexivity.
  - repeat split.
Defined.

(** X19.  [--silent] only matters when a file operation fails: when the
    palette can be read and the theme file can be written, the script does
    the same with the flag as without it, whatever the palette holds and
    whatever size is asked for. *)
Theorem silent_is_inert (a : Args.t) (w : env) (lines : list string)
    (q : bool) :
  readlines w (Args.path a) = Ok lines ->
  writable w (Args.theme a) ->
  main (set_silent a q) w = main a w.
Proof.
  intros R W.
  destruct (decode_palette lines) as [out [decoded|e]] eqn:D.
  2:{ now rewrite (main_decode_error a w lines out e R D),
        (main_decode_error (set_silent a q) w lines out e R D). }
  rewrite (main_dispatch a w lines out decoded R D).
  rewrite (main_dispatch (set_silent a q) w lines out decoded R D).
  change (dispatch (set_silent a q) (initial (set_silent a q) decoded))
    with (dispatch a (initial a decoded)).
  destruct (dispatch a (initial a decoded)) as [[[] s]|e] eqn:A; [|reflexivity].
  change (write_theme w (set_silent a q) (entries s))
    with (write_theme w a (entries s)).
  destruct (write_theme_ok w a decoded s A W) as [-> _]. reflexivity.
Qed.

Lemma silent_is_inert_witness :
  main (set_silent (example_args 5 false) true) example_env =
  main (example_args 5 false) example_env.
Proof.
  apply (silent_is_inert (example_args 5 false) example_env example_palette).
  - reflexivity.
  - repeat split.
Defined.

(** ** Failures of the file operations *)

Lemma write_all_prefix (w : env) (p : string) (pre : list string) :
  forall done rest,
    writes_ok w p done pre ->
    write_all w p done (List.map Ok pre ++ rest)%list =
    write_all w p (done ++ pre)%list rest.
Proof.
  induction pre as [|c pre IH]; intros done rest; cbn [writes_ok List.map app].
  - intros _. now rewrite app_nil_r.
  - intros [Hc Hpre]. cbn [write_all]. rewrite Hc, (IH _ rest Hpre).
    now rewrite <- app_assoc.
Qed.

Lemma write_all_fails (w : env) (p : string) (pre : list string) (c : string)
    (post : list string) (e : exn) :
  writes_ok w p [] pre -> write w p pre c = Raise e ->
  write_all w p [] (List.map Ok (pre ++ c :: post)) = (pre, Raise e).
Proof.
  intros Hpre Hc. rewrite map_app. cbn [List.map].
  rewrite (write_all_prefix w p pre [] _ Hpre). cbn [app write_all].
  now rewrite Hc.
Qed.

Lemma write_all_succeeds (w : env) (p : string) (chunks : list string) :
  writes_ok w p [] chunks ->
  write_all w p [] (List.map Ok chunks) = (chunks, Ok tt).
Proof.
  intros H. rewrite <- (app_nil_r (List.map Ok chunks)).
  rewrite (write_all_prefix w p chunks [] [] H). reflexivity.
Qed.

(** The chunks the script hands to [write] once the slots are assigned. *)
Lemma theme_chunks_assigned (a : Args.t) (decoded : list tuple) (s : state) :
  dispatch a (initial a decoded) = Ok (tt, s) ->
  theme_chunks a (entries s) =
  List.map Ok (generated_by :: theme_of a :: List.map slot_text (entries s)).
Proof.
  intros D. apply dispatch_ok in D. rewrite initial_pools in D.
  apply assign_triples in D. destruct D as [Ef Et].
  apply theme_chunks_ok; [|exact Et]. rewrite Ef. apply fields_nodup.
Qed.

(** C6.  An exception of the palette read, or of the block that opens,
    writes and closes the theme, ends the process with status 0 under
    [--silent] and is raised again, uncaught, without it.  This holds for
    each way the block can fail in the file system: the theme cannot be
    opened; one of the writes fails after the chunks before it were
    written; the close fails, after a failed write (its exception then
    replaces the other) or after the last write.  When nothing fails the
    status is 0.  An exception of the decoding of a palette line, or of the
    dispatch on the palette size, is uncaught whatever [--silent] says. *)
Theorem silent_only_io (a : Args.t) (w : env) :
  (forall e,
     readlines w (Args.path a) = Raise e ->
     status (main a w) = if Args.silent a then Exit 0 else Uncaught e) /\
  (forall lines out decoded s file e,
     readlines w (Args.path a) = Ok lines ->
     decode_palette lines = (out, Ok decoded) ->
     dispatch a (initial a decoded) = Ok (tt, s) ->
     write_theme w a (entries s) = (file, Raise e) ->
     status (main a w) = if Args.silent a then Exit 0 else Uncaught e) /\
  (forall conf e,
     open_w w (Args.theme a) = Raise e ->
     write_theme w a conf = (None, Raise e)) /\
  (forall lines out e,
     readlines w (Args.path a) = Ok lines ->
     decode_palette lines = (out, Raise e) ->
     status (main a w) = Uncaught e) /\
  (forall lines out decoded e,
     readlines w (Args.path a) = Ok lines ->
     decode_palette lines = (out, Ok decoded) ->
     dispatch a (initial a decoded) = Raise e ->
     status (main a w) = Uncaught e) /\
  (forall lines out decoded s,
     readlines w (Args.path a) = Ok lines ->
     decode_palette lines = (out, Ok decoded) ->
     dispatch a (initial a decoded) = Ok (tt, s) ->
     let theme := Args.theme a in
     let chunks :=
       generated_by :: theme_of a :: List.map slot_text (entries s) in
     let caught e := if Args.silent a then Exit 0 else Uncaught e in
     (forall e,
        open_w w theme = Raise e ->
        status (main a w) = caught e /\ theme_file (main a w) = None) /\
     (forall pre c post e,
        open_w w theme = Ok tt ->
        chunks = (pre ++ c :: post)%list ->
        writes_ok w theme [] pre ->
        write w theme pre c = Raise e ->
        (close w theme pre = Ok tt ->
         status (main a w) = caught e /\ theme_file (main a w) = Some pre) /\
        (forall e', close w theme pre = Raise e' ->
                    status (main a w) = caught e')) /\
     (forall e,
        open_w w theme = Ok tt ->
        writes_ok w theme [] chunks ->
        close w theme chunks = Raise e ->
        status (main a w) = caught e) /\
     (open_w w theme = Ok tt ->
      writes_ok w theme [] chunks ->
      close w theme chunks = Ok tt ->
      status (main a w) = Exit 0 /\ theme_file (main a w) = Some chunks)) /\
  exit_status (Exit 0) = 0 /\
  (forall e, exit_status (Uncaught e) = 1).
Proof.
  split; [|split; [|split; [|split; [|split; [|split; [|split]]]]]].
  - intros e H. now rewrite (main_read_error a w e H).
  - intros * H D A W. rewrite (main_dispatch a w _ _ _ H D), A, W. reflexivity.
  - intros conf e H. unfold write_theme. now rewrite H.
  - intros * H D. now rewrite (main_decode_error a w _ _ _ H D).
  - intros * H D A. now rewrite (main_dispatch a w _ _ _ H D), A.
  - intros lines out decoded s H D A theme chunks caught.
    pose proof (theme_chunks_assigned a decoded s A) as C.
    rewrite (main_dispatch a w lines out decoded H D), A.
    unfold write_theme. fold theme. rewrite C. fold chunks.
    split; [|split; [|split]].
    + intros e O. rewrite O. cbn. auto.
    + intros pre c post e O E Hpre Hc. rewrite O, E.
      rewrite (write_all_fails w theme pre c post e Hpre Hc). split.
      * intros ->. cbn. auto.
      * intros e' ->. reflexivity.
    + intros e O Hall Hc. rewrite O, (write_all_succeeds w theme chunks Hall), Hc.
      reflexivity.
    + intros O Hall Hc. rewrite O, (write_all_succeeds w theme chunks Hall), Hc.
      cbn. auto.
  - reflexivity.
  - reflexivity.
Qed.

Lemma silent_only_io_witness :
  status (main (example_args 8 true) no_files) = Exit 0 /\
  status (main (example_args 8 false) no_files) =
  Uncaught (OSError (Text "No such file or directory")) /\
  status (main (example_args 8 true) read_only) = Exit 0 /\
  status (main (example_args 8 false) read_only) =
  Uncaught (OSError (Text "Permission denied")) /\
  status (main (example_args 8 true) disk_full) = Exit 0 /\
  status (main (example_args 8 false) disk_full) =
  Uncaught (OSError (Text "No space left on device")) /\
  status (main (example_args 8 true) bad_close) = Exit 0 /\
  status (main (example_args 8 false) bad_close) =
  Uncaught (OSError (Text "Input/output error")).
Proof.
  assert (D : decode_palette example_palette = ([], Ok example_colors))
    by (vm_compute; reflexivity).
  assert (A : forall q, dispatch (example_args 8 q)
                          (initial (example_args 8 q) example_colors) =
                        Ok (tt, example_run))
    by (intros q; vm_compute; reflexivity).
  assert (T : forall q w,
            readlines w (Args.path (example_args 8 q)) = Ok example_palette ->
            _) by
    (intros q w R;
     exact (proj1 (proj2 (proj2 (proj2 (proj2 (proj2
              (silent_only_io (example_args 8 q) w))))))
              example_palette [] example_colors example_run R D (A q))).
  cbv zeta in T.
  assert (E : forall q,
            generated_by :: theme_of (example_args 8 q)
            :: List.map slot_text (entries example_run) =
            ([generated_by; theme_of (example_args 8 q)]
             ++ hd EmptyString (List.map slot_text (entries example_run))
             :: tl (List.map slot_text (entries example_run)))%list)
    by (intros q; vm_compute; reflexivity).
  refine (conj _ (conj _ (conj _ (conj _ (conj _ (conj _ (conj _ _))))))).
  - exact (proj1 (silent_only_io (example_args 8 true) no_files) _ eq_refl).
  - exact (proj1 (silent_only_io (example_args 8 false) no_files) _ eq_refl).
  - destruct (T true read_only eq_refl) as (Hopen & _).
    exact (proj1 (Hopen _ eq_refl)).
  - destruct (T false read_only eq_refl) as (Hopen & _).
    exact (proj1 (Hopen _ eq_refl)).
  - destruct (T true disk_full eq_refl) as (_ & Hwrite & _).
    destruct (Hwrite _ _ _ (OSError (Text "No space left on device"))
                eq_refl (E true)) as [Hc _];
      [cbn; auto | reflexivity |]. exact (proj1 (Hc eq_refl)).
  - destruct (T false disk_full eq_refl) as (_ & Hwrite & _).
    destruct (Hwrite _ _ _ (OSError (Text "No space left on device"))
                eq_refl (E false)) as [Hc _];
      [cbn; auto | reflexivity |]. exact (proj1 (Hc eq_refl)).
  - destruct (T true bad_close eq_refl) as (_ & _ & Hclose & _).
    apply (Hclose (OSError (Text "Input/output error")) eq_refl);
      [vm_compute; repeat split | reflexivity].
  - destruct (T false bad_close eq_refl) as (_ & _ & Hclose & _).
    apply (Hclose (OSError (Text "Input/output error")) eq_refl);
      [vm_compute; repeat split | reflexivity].
Defined.
